(** * drawRoute.py: instance reader, cost table, result reader and the
      aggregation/drawing loop of the cross-dock routing script.

    The script is embedded function by function.  Python exceptions are an
    error type, dictionaries are insertion-ordered association lists (the
    order of [dict.values()] decides which route gets which line style),
    floats are IEEE binary64 values in the executable specification of
    [SpecFloat].  The script body is a sequence of steps over its output;
    the calls into networkx and matplotlib are events of that output, and
    whether such a call returns or raises is a parameter of the script. *)

From Stdlib Require Import ZArith List Bool Lia FinFun.
From Stdlib Require Import Strings.String Strings.Ascii.
From Stdlib Require Import Floats.SpecFloat.
Import ListNotations.

Open Scope Z_scope.

(** ** Exceptions *)

Inductive exn : Type :=
| ValueError
| IndexError
| KeyError
| OverflowError
| LibraryError.

Inductive result (A : Type) : Type :=
| Ok (a : A)
| Raise (e : exn).

Arguments Ok {A} a.
Arguments Raise {A} e.

Definition bind {A B : Type} (r : result A) (k : A -> result B) : result B :=
  match r with
  | Ok a => k a
  | Raise e => Raise e
  end.

Notation "x <- r ;; k" := (bind r (fun x => k))
  (at level 61, r at next level, right associativity).
Notation "' p <- r ;; k" := (bind r (fun x => let p := x in k))
  (at level 61, p pattern, r at next level, right associativity).

(** ** Keys and dictionaries *)

Class Key (K : Type) : Type := {
  keyb : K -> K -> bool;
  keyb_spec : forall a b : K, keyb a b = true <-> a = b
}.

#[export] Instance Key_Z : Key Z := {|
  keyb := Z.eqb;
  keyb_spec := Z.eqb_eq
|}.

Definition pairb (p q : Z * Z) : bool :=
  Z.eqb (fst p) (fst q) && Z.eqb (snd p) (snd q).

#[export] Instance Key_pair : Key (Z * Z).
Proof.
  refine {| keyb := pairb |}.
  intros [a b] [c d]; unfold pairb; simpl.
  rewrite andb_true_iff, !Z.eqb_eq.
  split; [intros [-> ->]; reflexivity | intros E; inversion E; auto].
Defined.

Module Dict.
Section Ops.
Context {K V : Type} `{Key K}.

(** A Python [dict]: keys in insertion order, each key once. *)
Definition t : Type := list (K * V).

Definition empty : t := [].

Fixpoint get (d : t) (k : K) : option V :=
  match d with
  | [] => None
  | (k', v) :: d' => if keyb k' k then Some v else get d' k
  end.

(** [d.get(k, default)] *)
Definition get_default (d : t) (k : K) (default : V) : V :=
  match get d k with
  | Some v => v
  | None => default
  end.

(** [d[k]], which raises [KeyError] on a missing key. *)
Definition lookup (d : t) (k : K) : result V :=
  match get d k with
  | Some v => Ok v
  | None => Raise KeyError
  end.

(** [d[k] = v]: an existing key keeps its place, a new one goes last. *)
Fixpoint set (d : t) (k : K) (v : V) : t :=
  match d with
  | [] => [(k, v)]
  | (k', v') :: d' =>
      if keyb k' k then (k', v) :: d' else (k', v') :: set d' k v
  end.

Definition keys (d : t) : list K := map fst d.
Definition values (d : t) : list V := map snd d.
Definition items (d : t) : list (K * V) := d.

Definition mem (d : t) (k : K) : bool :=
  match get d k with
  | Some _ => true
  | None => false
  end.
End Ops.
Arguments t K V : clear implicits.
End Dict.

(** ** Sequences *)

(** [range(lo, hi)] *)
Definition range (lo hi : Z) : list Z :=
  map (fun k => lo + Z.of_nat k) (seq 0 (Z.to_nat (hi - lo))).

(** [l[i]] for an index [i >= 0] *)
Definition index {A : Type} (l : list A) (i : nat) : result A :=
  match nth_error l i with
  | Some x => Ok x
  | None => Raise IndexError
  end.

(** [a, b, c = l] *)
Definition unpack3 {A : Type} (l : list A) : result (A * A * A) :=
  match l with
  | [a; b; c] => Ok (a, b, c)
  | _ => Raise ValueError
  end.

(** ** readInstance *)

(** The matrix produced by [pandas.read_csv(...).as_matrix()] is the input:
    a list of rows of integer cells, on which [int(r)] is the identity.  A
    cell that is NaN, infinite or not a number, on which [int(r)] raises, is
    outside this type: what follows is about matrices of integers. *)
Definition matrix : Type := list (list Z).

Definition positions_t : Type := Dict.t Z (Z * Z).

(** The loop [for row in inputData: a, b, c = ...; positions[a] = b, c],
    for the value it computes; [readInstance_rows_printing] below is the
    same loop with its [print(a, b, c)]. *)
Fixpoint readInstance_rows (rows : matrix) (positions : positions_t)
  : result positions_t :=
  match rows with
  | [] => Ok positions
  | row :: rows' =>
      '(a, b, c) <- unpack3 (firstn 3 row) ;;
      readInstance_rows rows' (Dict.set positions a (b, c))
  end.

Definition readInstance (inputData : matrix)
  : result (list Z * list Z * Z * positions_t) :=
  row0 <- index inputData 0 ;;
  nSuppliers <- index row0 0 ;;
  nConsumers <- index row0 1 ;;
  let suppliers := range 1 (nSuppliers + 1) in
  let consumers := range (nSuppliers + 1) (nSuppliers + nConsumers + 1) in
  let cd := nSuppliers + nConsumers + 1 in
  let inputData := skipn 2 inputData in
  positions <- readInstance_rows inputData Dict.empty ;;
  Ok (suppliers, consumers, cd, positions).

(** ** Floats *)

(** Python floats are IEEE binary64. *)
Definition float : Type := spec_float.

Definition prec : Z := 53.
Definition emax : Z := 1024.

Definition fzero : float := S754_zero false.
Definition fadd : float -> float -> float := SFadd prec emax.
Definition fsqrt : float -> float := SFsqrt prec emax.

(** [float(n)] for a Python int: the nearest binary64 value, and
    [OverflowError] when that is out of range. *)
Definition float_of_int (n : Z) : result float :=
  match binary_normalize prec emax n 0 false with
  | S754_infinity _ => Raise OverflowError
  | f => Ok f
  end.

(** [n ** 0.5] for a Python int [n >= 0]: the base is converted to a float
    and the power 0.5 is taken as the correctly rounded square root.  The C
    library's [pow] may differ from it in the last bit where the root is not
    exact; the statements below use that [0 ** 0.5] and [25 ** 0.5] are
    exact and that equal arguments give equal results. *)
Definition pow_half (n : Z) : result float :=
  x <- float_of_int n ;;
  Ok (fsqrt x).

(** ** The cost table *)

Definition costs_t : Type := Dict.t (Z * Z) float.

Definition item : Type := Z * (Z * Z).

Fixpoint costs_inner (i xi yi : Z) (js : list item) (costs : costs_t)
  : result costs_t :=
  match js with
  | [] => Ok costs
  | (j, (xj, yj)) :: js' =>
      c <- pow_half ((xi - xj) ^ 2 + (yi - yj) ^ 2) ;;
      costs_inner i xi yi js' (Dict.set costs (i, j) c)
  end.

Fixpoint costs_outer (rows js : list item) (costs : costs_t)
  : result costs_t :=
  match rows with
  | [] => Ok costs
  | (i, (xi, yi)) :: rows' =>
      costs' <- costs_inner i xi yi js costs ;;
      costs_outer rows' js costs'
  end.

(** Lines 56-59: both loops run over [positions.items()]. *)
Definition build_costs (positions : positions_t) : result costs_t :=
  costs_outer (Dict.items positions) (Dict.items positions) Dict.empty.

(** ** readResult *)

Definition ascii_code (c : ascii) : Z := Z.of_N (N_of_ascii c).

(** The characters below 256 on which [str.split()] splits. *)
Definition is_space (c : ascii) : bool :=
  let n := ascii_code c in
  ((9 <=? n) && (n <=? 13)) || ((28 <=? n) && (n <=? 32))
  || (n =? 133) || (n =? 160).

Definition flush (cur : string) (acc : list string) : list string :=
  match cur with
  | EmptyString => acc
  | _ => cur :: acc
  end.

Fixpoint split_from (s cur : string) : list string :=
  match s with
  | EmptyString => flush cur []
  | String c s' =>
      if is_space c then flush cur (split_from s' EmptyString)
      else split_from s' (cur ++ String c EmptyString)
  end.

(** [line.split()] *)
Definition split (line : string) : list string := split_from line EmptyString.

Definition digit_of (c : ascii) : option Z :=
  let n := ascii_code c in
  if (48 <=? n) && (n <=? 57) then Some (n - 48) else None.

(** Decimal digits, single underscores allowed between two digits. *)
Fixpoint int_digits (s : string) (acc : Z) (after_digit : bool) : option Z :=
  match s with
  | EmptyString => if after_digit then Some acc else None
  | String c s' =>
      if Ascii.eqb c "_"%char then
        if after_digit then int_digits s' acc false else None
      else
        match digit_of c with
        | Some d => int_digits s' (10 * acc + d) true
        | None => None
        end
  end.

Definition int_literal (s : string) : option Z :=
  match s with
  | String c s' =>
      if Ascii.eqb c "-"%char then option_map Z.opp (int_digits s' 0 false)
      else if Ascii.eqb c "+"%char then int_digits s' 0 false
      else int_digits s 0 false
  | EmptyString => None
  end.

(** [int(x)] on a token of [split]: an optional sign and a decimal literal,
    [ValueError] otherwise. *)
Definition py_int (x : string) : result Z :=
  match int_literal x with
  | Some n => Ok n
  | None => Raise ValueError
  end.

(** [[int(x) for x in words]] *)
Fixpoint ints (words : list string) : result (list Z) :=
  match words with
  | [] => Ok []
  | x :: words' =>
      n <- py_int x ;;
      ns <- ints words' ;;
      Ok (n :: ns)
  end.

Definition edge : Type := Z * Z.
Definition route_t : Type := Dict.t Z (list edge).

(** The body of [for line in fd], threading [suppliersRoute]. *)
Definition readResult_line (line : string) (suppliersRoute : route_t)
  : result route_t :=
  let words := split line in
  if (1 <? List.length words)%nat then
    ns <- ints words ;;
    '(a, b, c) <- unpack3 ns ;;
    let route := Dict.get_default suppliersRoute a [] in
    let route := route ++ [(b, c)] in
    Ok (Dict.set suppliersRoute a route)
  else Ok suppliersRoute.

Fixpoint readResult_lines (lines : list string) (suppliersRoute : route_t)
  : result route_t :=
  match lines with
  | [] => Ok suppliersRoute
  | line :: lines' =>
      suppliersRoute' <- readResult_line line suppliersRoute ;;
      readResult_lines lines' suppliersRoute'
  end.

(** The file is given as the list of its lines. *)
Definition readResult (lines : list string) : result route_t :=
  readResult_lines lines Dict.empty.

(** ** The script body *)

(** What the script prints, and its calls into networkx and matplotlib. *)
Inductive event : Type :=
| PrintFiles
| PrintRow (a b c : Z)
| PrintNodes (nodes : list Z)
| NewGraph
| AddNodes (nodes : list Z)
| DrawLabels (nodes : list Z)
| DrawNodes (nodelist : list Z) (node_color : string)
| AddEdges (edges : list edge)
| PrintEdges (edges : list edge)
| DrawEdges (edges : list edge) (edge_color style : string)
| PrintTotal (totalCost : float)
| PltAxis
| PltGrid
| PltLegend
| PltShow.

(** Whether a library call returns or raises is decided by networkx and
    matplotlib, not by the script: it is a parameter, asked with the output
    so far and the call at hand. *)
Definition library : Type := list event -> event -> option exn.

(** A library all of whose calls return. *)
Definition quiet : library := fun _ _ => None.

Definition returns (lib : library) : Prop := forall out ev, lib out ev = None.

(** Script steps: they extend the output and return a value or raise. *)
Definition io (A : Type) : Type := list event -> list event * result A.

Definition ret {A : Type} (a : A) : io A := fun out => (out, Ok a).

Definition io_bind {A B : Type} (m : io A) (k : A -> io B) : io B :=
  fun out =>
    match m out with
    | (out', Ok a) => k a out'
    | (out', Raise e) => (out', Raise e)
    end.

Notation "x <~ m ;; k" := (io_bind m (fun x => k))
  (at level 61, m at next level, right associativity).
Notation "' p <~ m ;; k" := (io_bind m (fun x => let p := x in k))
  (at level 61, p pattern, m at next level, right associativity).

Definition lift {A : Type} (r : result A) : io A := fun out => (out, r).

Definition print (ev : event) : io unit := fun out => (out ++ [ev], Ok tt).

(** A library call is part of the output once it has returned. *)
Definition call (lib : library) (ev : event) : io unit :=
  fun out =>
    match lib out ev with
    | Some e => (out, Raise e)
    | None => (out ++ [ev], Ok tt)
    end.

Definition run {A : Type} (m : io A) : list event * result A := m [].

Definition colors : list string := ["k"; "k"]%string.
Definition styles : list string := ["solid"; "dashed"]%string.

(** The inner loop [for (a, b) in edges: totalCost += costs[a, b]].
    [totalCost] starts as the int 0, which the first [+=] converts to 0.0;
    the running total is a float that starts at 0.0. *)
Fixpoint sum_edges (costs : costs_t) (edges : list edge) (totalCost : float)
  : result float :=
  match edges with
  | [] => Ok totalCost
  | (a, b) :: edges' =>
      c <- Dict.lookup costs (a, b) ;;
      sum_edges costs edges' (fadd totalCost c)
  end.

(** [readInstance] as it runs: the loop of lines 24-27 with its
    [print(a, b, c)]. *)
Fixpoint readInstance_rows_printing (rows : matrix) (positions : positions_t)
  : io positions_t :=
  match rows with
  | [] => ret positions
  | row :: rows' =>
      '(a, b, c) <~ lift (unpack3 (firstn 3 row)) ;;
      let positions := Dict.set positions a (b, c) in
      _ <~ print (PrintRow a b c) ;;
      readInstance_rows_printing rows' positions
  end.

Definition readInstance_printing (inputData : matrix)
  : io (list Z * list Z * Z * positions_t) :=
  row0 <~ lift (index inputData 0) ;;
  nSuppliers <~ lift (index row0 0) ;;
  nConsumers <~ lift (index row0 1) ;;
  let suppliers := range 1 (nSuppliers + 1) in
  let consumers := range (nSuppliers + 1) (nSuppliers + nConsumers + 1) in
  let cd := nSuppliers + nConsumers + 1 in
  let inputData := skipn 2 inputData in
  positions <~ readInstance_rows_printing inputData Dict.empty ;;
  ret (suppliers, consumers, cd, positions).

Section Script.
Variable lib : library.

(** The loop [for (i, edges) in enumerate(suppliersRoute.values())]. *)
Fixpoint totalCost_loop (costs : costs_t) (i : nat) (routes : list (list edge))
  (totalCost : float) : io float :=
  match routes with
  | [] => ret totalCost
  | edges :: routes' =>
      totalCost' <~ lift (sum_edges costs edges totalCost) ;;
      _ <~ call lib (AddEdges edges) ;;
      _ <~ print (PrintEdges edges) ;;
      edge_color <~ lift (index colors i) ;;
      style <~ lift (index styles i) ;;
      _ <~ call lib (DrawEdges edges edge_color style) ;;
      totalCost_loop costs (S i) routes' totalCost'
  end.

(** Lines 76-89: [totalCost] after the loop. *)
Definition totalCost (costs : costs_t) (suppliersRoute : route_t) : io float :=
  totalCost_loop costs 0 (Dict.values suppliersRoute) fzero.

(** Lines 63-74: the node list and the drawing of the nodes. *)
Definition draw_nodes (suppliers consumers : list Z) (cd : Z) : io unit :=
  let nodes := suppliers ++ consumers ++ [cd] in
  _ <~ print (PrintNodes nodes) ;;
  _ <~ call lib NewGraph ;;
  _ <~ call lib (AddNodes nodes) ;;
  _ <~ call lib (DrawLabels nodes) ;;
  _ <~ call lib (DrawNodes suppliers "r") ;;
  _ <~ call lib (DrawNodes consumers "g") ;;
  call lib (DrawNodes [cd] "b").

(** Lines 91-97. *)
Definition report (totalCost : float) : io float :=
  _ <~ print (PrintTotal totalCost) ;;
  _ <~ call lib PltAxis ;;
  _ <~ call lib PltGrid ;;
  _ <~ call lib PltLegend ;;
  _ <~ call lib PltShow ;;
  ret totalCost.

(** Lines 49-97, for the instance matrix and the lines of the result file
    that [sys.argv[1]] names. *)
Definition script (inputData : matrix) (resultLines : list string)
  : io float :=
  _ <~ print PrintFiles ;;
  '(suppliers, consumers, cd, positions) <~ readInstance_printing inputData ;;
  costs <~ lift (build_costs positions) ;;
  suppliersRoute <~ lift (readResult resultLines) ;;
  _ <~ draw_nodes suppliers consumers cd ;;
  totalCost <~ totalCost costs suppliersRoute ;;
  report totalCost.

End Script.

(** ** Reference definitions for the statements *)

(** 5.0 as a binary64 value: 5 * 2^50 * 2^-50. *)
Definition five : float := S754_finite false 5629499534213120 (-50).

Definition wf {K V : Type} (d : Dict.t K V) : Prop := NoDup (Dict.keys d).

(** The cost of one edge, read off the table. *)
Definition cost_at (costs : costs_t) (e : edge) : float :=
  Dict.get_default costs e S754_nan.

(** The edges of all owners, in the mapping's order. *)
Definition flattened (routes : list (list edge)) : list edge :=
  List.concat routes.

Definition add_cost (costs : costs_t) (acc : float) (e : edge) : float :=
  fadd acc (cost_at costs e).

(** Summing [Cost] over a flat edge list, left to right from 0.0. *)
Definition resum (costs : costs_t) (edges : list edge) : float :=
  fold_left (add_cost costs) edges fzero.

(** The rows that the loop of [readInstance] prints: every row up to the
    first that has fewer than three cells. *)
Fixpoint printed_rows (rows : matrix) : list event :=
  match rows with
  | (a :: b :: c :: _) :: rows' => PrintRow a b c :: printed_rows rows'
  | _ => []
  end.

(** What [readInstance] prints: nothing when row 0 is missing or short. *)
Definition readInstance_output (inputData : matrix) : list event :=
  match inputData with
  | (_ :: _ :: _) :: _ => printed_rows (skipn 2 inputData)
  | _ => []
  end.

(** What the script has written and drawn when the loop starts. *)
Definition preamble (inputData : matrix) (suppliers consumers : list Z)
  (cd : Z) : list event :=
  let nodes := suppliers ++ consumers ++ [cd] in
  PrintFiles :: readInstance_output inputData ++
  [PrintNodes nodes; NewGraph; AddNodes nodes; DrawLabels nodes;
   DrawNodes suppliers "r"; DrawNodes consumers "g"; DrawNodes [cd] "b"].

(** What is written and shown after the loop. *)
Definition epilogue (totalCost : float) : list event :=
  [PrintTotal totalCost; PltAxis; PltGrid; PltLegend; PltShow].

(** One completed round of the loop. *)
Definition round (edges : list edge) (style : string) : list event :=
  [AddEdges edges; PrintEdges edges; DrawEdges edges "k" style].

Definition covers (costs : costs_t) (edges : list edge) : Prop :=
  forall e, In e edges -> Dict.get costs e <> None.

(** A result line in the format [owner from to]. *)
Definition parse_line (line : string) : option (Z * edge) :=
  match map int_literal (split line) with
  | [Some a; Some b; Some c] => Some (a, (b, c))
  | _ => None
  end.

(** A line the reader does not skip: more than one token. *)
Definition qualifies (line : string) : bool :=
  (1 <? List.length (split line))%nat.

Definition line_ok (line : string) : Prop :=
  qualifies line = true -> parse_line line <> None.

(** The [(owner, (from, to))] triples of the qualifying lines, in file
    order. *)
Fixpoint triples (lines : list string) : list (Z * edge) :=
  match lines with
  | [] => []
  | line :: lines' =>
      match (if qualifies line then parse_line line else None) with
      | Some t => t :: triples lines'
      | None => triples lines'
      end
  end.

(** Appending one edge to its owner's list, as lines 42-44 do. *)
Definition add_edge (suppliersRoute : route_t) (t : Z * edge) : route_t :=
  Dict.set suppliersRoute (fst t)
    (Dict.get_default suppliersRoute (fst t) [] ++ [snd t]).

(** The distinct elements of a list in the order of their first
    occurrence. *)
Fixpoint first_seen (l : list Z) : list Z :=
  match l with
  | [] => []
  | a :: l' => a :: filter (fun x => negb (x =? a)) (first_seen l')
  end.

(** The edges the file gives for one owner, in file order. *)
Definition edges_of (owner : Z) (ts : list (Z * edge)) : list edge :=
  map snd (filter (fun t => fst t =? owner) ts).

Definition is_draw_edges (ev : event) : bool :=
  match ev with
  | DrawEdges _ _ _ => true
  | _ => false
  end.

(** The events that are prints of the script itself, not library calls. *)
Definition is_print (ev : event) : bool :=
  match ev with
  | PrintFiles | PrintRow _ _ _ | PrintNodes _ | PrintEdges _
  | PrintTotal _ => true
  | _ => false
  end.

(** How many routes have been drawn. *)
Definition drawn (out : list event) : nat :=
  List.length (filter is_draw_edges out).

(** A step that draws at most [n] routes. *)
Definition draws_at_most {A : Type} (n : nat) (m : io A) : Prop :=
  forall out, (drawn (fst (m out)) <= drawn out + n)%nat.

(** A row that lists node [a]: [a], two coordinates, and possibly more
    cells. *)
Definition lists_id (a : Z) (row : list Z) : Prop :=
  exists b c more, row = a :: b :: c :: more.

(** Scenario A: one supplier, one consumer, data rows (1,0,0), (2,3,4). *)
Definition scenarioA : matrix := [[1; 1]; [1; 0; 0]; [2; 3; 4]].

Definition to_option {A : Type} (r : result A) : option A :=
  match r with
  | Ok a => Some a
  | Raise _ => None
  end.

(** The squared distance under the root of line 59. *)
Definition dist2 (p q : Z * Z) : Z :=
  (fst p - fst q) ^ 2 + (snd p - snd q) ^ 2.

(** Scenario A with its data rows in rows 2 and 3. *)
Definition scenarioA_from_2 : matrix :=
  [[1; 1]; [0; 0; 0]; [1; 0; 0]; [2; 3; 4]].

(** Scenario C: a result file with three owners. *)
Definition scenarioC : list string := ["1 1 2"; "2 2 1"; "3 1 1"]%string.

Definition routeC : route_t :=
  [(1, [(1, 2)]); (2, [(2, 1)]); (3, [(1, 1)])].

(** A result file with blank and one-token lines and interleaved owners. *)
Definition sample_result : list string :=
  ["2 5 6"; ""; "TotalObjective"; "1 1 2"; " 2  6	7 "; "1 2 +3_0"]%string.

(** Two owners on the nodes of scenario A, and a route through the
    cross-dock 3, which has no position. *)
Definition routeA : route_t := [(1, [(1, 2); (2, 1)]); (2, [(2, 2)])].

Definition route_via_cd : route_t := [(1, [(1, 3)])].

(** Four owners; only the fourth has an edge through the cross-dock. *)
Definition route_four : route_t :=
  [(1, [(1, 2)]); (2, [(2, 1)]); (3, [(2, 2)]); (4, [(1, 3)])].

(** The positions and the cost table of scenario A read from row 2 on. *)
Definition positionsA : positions_t := [(1, (0, 0)); (2, (3, 4))].

Definition costsA : costs_t :=
  Eval vm_compute in
    match build_costs positionsA with
    | Ok costs => costs
    | Raise _ => []
    end.

(** ** Definitions for the further properties *)

(** The position item that a data row stands for. *)
Definition node_row (row : list Z) : item :=
  (nth 0 row 0, (nth 1 row 0, nth 2 row 0)).

(** All positions moved by [(dx, dy)]. *)
Definition shift (dx dy : Z) (positions : positions_t) : positions_t :=
  map (fun it : item => (fst it, (fst (snd it) + dx, snd (snd it) + dy)))
    positions.

(** An edge taken in the other direction. *)
Definition swap (e : edge) : edge := (snd e, fst e).

(** The completed rounds of the loop for [routes], the first of them being
    the [i]-th of the run: each route with its own style. *)
Definition rounds_from (i : nat) (routes : list (list edge)) : list event :=
  List.concat
    (map (fun p => round (fst p) (snd p)) (combine routes (skipn i styles))).

(** A matrix with repeated node ids, a short row and long rows. *)
Definition sample_matrix : matrix :=
  [[2; 1; 7]; [0; 0; 0]; [1; 0; 0; 9]; [2; 3; 4]; [3; 6; 8]].

Definition sample_positions : positions_t :=
  [(1, (0, 0)); (2, (3, 4)); (3, (6, 8))].

(** * Proofs *)

Create HintDb dict discriminated.

Ltac inv H := inversion H; subst; clear H.

(** Case analysis on the next monadic step of a hypothesis or of the goal. *)
Ltac step_in H :=
  match type of H with
  | context [bind ?r _] =>
      let E := fresh "E" in
      destruct r eqn:E; simpl in H; try discriminate H
  end.

Section DictFacts.
Context {K V : Type} `{Key K}.
Implicit Types (d : Dict.t K V) (k : K) (v : V).

Lemma keyb_refl k : keyb k k = true.
Proof. apply keyb_spec; reflexivity. Qed.

Lemma keyb_neq k k' : k <> k' -> keyb k k' = false.
Proof.
  intros N; destruct (keyb k k') eqn:E; [|reflexivity].
  apply keyb_spec in E; contradiction.
Qed.

Lemma keyb_sym k k' : keyb k k' = keyb k' k.
Proof.
  destruct (keyb k' k) eqn:E.
  - apply keyb_spec in E; subst; apply keyb_refl.
  - apply keyb_neq; intros ->; rewrite keyb_refl in E; discriminate.
Qed.

Lemma get_set_same d k v : Dict.get (Dict.set d k v) k = Some v.
Proof.
  induction d as [|[k' v'] d IH]; simpl.
  - rewrite keyb_refl; reflexivity.
  - destruct (keyb k' k) eqn:E; simpl; rewrite E; auto.
Qed.

Lemma get_set_other d k k' v :
  k <> k' -> Dict.get (Dict.set d k v) k' = Dict.get d k'.
Proof.
  intros N; induction d as [|[k0 v0] d IH]; simpl.
  - rewrite keyb_neq by assumption; reflexivity.
  - destruct (keyb k0 k) eqn:E; simpl.
    + apply keyb_spec in E; subst k0.
      rewrite keyb_neq by assumption; reflexivity.
    + rewrite IH; reflexivity.
Qed.

Lemma get_set d k k' v :
  Dict.get (Dict.set d k v) k' =
  if keyb k k' then Some v else Dict.get d k'.
Proof.
  destruct (keyb k k') eqn:E.
  - apply keyb_spec in E; subst; apply get_set_same.
  - apply get_set_other; intros ->; rewrite keyb_refl in E; discriminate.
Qed.

Lemma get_None_iff d k : Dict.get d k = None <-> ~ In k (Dict.keys d).
Proof.
  induction d as [|[k' v'] d IH]; simpl.
  - tauto.
  - destruct (keyb k' k) eqn:E.
    + apply keyb_spec in E; subst; split; [discriminate | tauto].
    + rewrite IH; split; [|tauto].
      intros N [->|I]; [rewrite keyb_refl in E; discriminate | tauto].
Qed.

Lemma In_get d k v : Dict.get d k = Some v -> In (k, v) d.
Proof.
  induction d as [|[k' v'] d IH]; simpl; [discriminate|].
  destruct (keyb k' k) eqn:E; [|auto].
  apply keyb_spec in E; subst; intros [= ->]; auto.
Qed.

Lemma mem_true_iff d k : Dict.mem d k = true <-> In k (Dict.keys d).
Proof.
  unfold Dict.mem; destruct (Dict.get d k) eqn:E.
  - split; [intros _|reflexivity].
    apply In_get in E; apply (in_map fst) in E; exact E.
  - split; [discriminate|].
    intros I; apply get_None_iff in E; contradiction.
Qed.

Lemma keys_set d k v :
  Dict.keys (Dict.set d k v) =
  if Dict.mem d k then Dict.keys d else Dict.keys d ++ [k].
Proof.
  unfold Dict.mem; induction d as [|[k' v'] d IH]; simpl.
  - reflexivity.
  - destruct (keyb k' k) eqn:E; simpl; [reflexivity|].
    rewrite IH; destruct (Dict.get d k); reflexivity.
Qed.

Lemma wf_set d k v : wf d -> wf (Dict.set d k v).
Proof.
  unfold wf; intros W; rewrite keys_set.
  destruct (Dict.mem d k) eqn:M; [assumption|].
  apply NoDup_app; [assumption | repeat constructor; simpl; tauto |].
  intros x I [<-|[]].
  apply mem_true_iff in I; congruence.
Qed.

Lemma get_In d k v : wf d -> In (k, v) d -> Dict.get d k = Some v.
Proof.
  unfold wf; induction d as [|[k' v'] d IH]; simpl; [tauto|].
  intros W [E|I]; inversion W as [|? ? Hnotin Hnodup]; subst.
  - inv E; rewrite keyb_refl; reflexivity.
  - rewrite keyb_neq; [auto|].
    intros ->; apply Hnotin; apply (in_map fst) in I; exact I.
Qed.

End DictFacts.

#[export] Hint Resolve wf_set : dict.

(** ** Ranges *)

Lemma In_range (lo hi z : Z) : In z (range lo hi) <-> lo <= z < hi.
Proof.
  unfold range; rewrite in_map_iff; split.
  - intros (k & <- & I); apply in_seq in I; lia.
  - intros B; exists (Z.to_nat (z - lo)); split; [lia|].
    apply in_seq; lia.
Qed.

Lemma seq_add_map (a b n : nat) :
  seq (a + b) n = map (fun k => (a + k)%nat) (seq b n).
Proof.
  revert b; induction n as [|n IH]; intros b; simpl; [reflexivity|].
  f_equal; rewrite <- IH; f_equal; lia.
Qed.

Lemma range_app (lo mid hi : Z) :
  lo <= mid <= hi -> range lo mid ++ range mid hi = range lo hi.
Proof.
  intros B; unfold range.
  replace (Z.to_nat (hi - lo))
    with (Z.to_nat (mid - lo) + Z.to_nat (hi - mid))%nat by lia.
  rewrite seq_app, map_app; f_equal; simpl.
  replace (seq (Z.to_nat (mid - lo)) (Z.to_nat (hi - mid)))
    with (map (fun k => (Z.to_nat (mid - lo) + k)%nat)
            (seq 0 (Z.to_nat (hi - mid))))
    by (rewrite <- seq_add_map; f_equal; lia).
  rewrite map_map; apply map_ext; intros k; lia.
Qed.

Lemma range_single (z : Z) : range z (z + 1) = [z].
Proof.
  unfold range; replace (z + 1 - z) with 1 by lia; simpl; f_equal; lia.
Qed.

Lemma NoDup_range (lo hi : Z) : NoDup (range lo hi).
Proof.
  unfold range; apply Injective_map_NoDup; [|apply seq_NoDup].
  intros a b E; lia.
Qed.

(** ** readInstance *)

#[local] Arguments firstn : simpl never.

Lemma unpack3_firstn (row : list Z) (a b c : Z) :
  unpack3 (firstn 3 row) = Ok (a, b, c) <->
  exists more, row = a :: b :: c :: more.
Proof.
  split.
  - destruct row as [|a' [|b' [|c' more]]]; cbv [firstn unpack3];
      try discriminate.
    intros [= -> -> ->]; eauto.
  - intros [more ->]; reflexivity.
Qed.

Lemma readInstance_rows_app (r1 r2 : matrix) (init : positions_t) :
  readInstance_rows (r1 ++ r2) init =
  (ps <- readInstance_rows r1 init ;; readInstance_rows r2 ps).
Proof.
  revert init; induction r1 as [|row r1 IH]; intros init; simpl; [reflexivity|].
  destruct (unpack3 (firstn 3 row)) as [[[a b] c]|e]; simpl;
    [apply IH | reflexivity].
Qed.

Lemma readInstance_rows_total (rows : matrix) (init : positions_t) :
  Forall (fun row => (3 <= List.length row)%nat) rows ->
  exists ps, readInstance_rows rows init = Ok ps.
Proof.
  intros F; revert init; induction F as [|row rows L F IH]; intros init; simpl.
  - eauto.
  - destruct row as [|a [|b [|c more]]]; simpl in L; try lia.
    rewrite (proj2 (unpack3_firstn _ a b c)) by eauto.
    simpl; apply IH.
Qed.

Lemma readInstance_rows_wf (rows : matrix) (init ps : positions_t) :
  wf init -> readInstance_rows rows init = Ok ps -> wf ps.
Proof.
  revert init; induction rows as [|row rows IH]; intros init W R; simpl in R.
  - inv R; assumption.
  - step_in R; destruct a as [[a b] c]; simpl in R.
    eapply IH; [|exact R]; auto with dict.
Qed.

Lemma readInstance_rows_keep (rows : matrix) (init ps : positions_t) (a : Z) :
  readInstance_rows rows init = Ok ps ->
  (forall row, In row rows -> ~ lists_id a row) ->
  Dict.get ps a = Dict.get init a.
Proof.
  revert init; induction rows as [|row rows IH]; intros init R N; simpl in R.
  - inv R; reflexivity.
  - step_in R; destruct a0 as [[a' b] c]; simpl in R.
    apply unpack3_firstn in E; destruct E as [more ->].
    rewrite (IH _ R) by (intros r I; apply N; right; exact I).
    apply get_set_other; intros ->.
    apply (N (a :: b :: c :: more)); [left; reflexivity|].
    exists b, c, more; reflexivity.
Qed.

Lemma readInstance_rows_keys (rows : matrix) (init ps : positions_t) (a : Z) :
  readInstance_rows rows init = Ok ps ->
  In a (Dict.keys ps) <->
  In a (Dict.keys init) \/ exists row, In row rows /\ lists_id a row.
Proof.
  revert init; induction rows as [|row rows IH]; intros init R; simpl in R.
  - inv R; split; [tauto|]; intros [I|(row & [] & _)]; exact I.
  - step_in R; destruct a0 as [[a' b] c]; simpl in R.
    apply unpack3_firstn in E; destruct E as [more ->].
    rewrite (IH _ R), keys_set; clear IH R.
    assert (Hhead : a = a' -> lists_id a (a' :: b :: c :: more))
      by (intros ->; exists b, c, more; reflexivity).
    assert (Hinv : lists_id a (a' :: b :: c :: more) -> a = a')
      by (intros (? & ? & ? & Q); inversion Q; reflexivity).
    destruct (Dict.mem init a') eqn:M.
    + split.
      * intros [I|(row & I & L)]; [tauto|]; right; exists row; simpl; tauto.
      * intros [I|(row & [<-|I] & L)]; [tauto| |right; eauto].
        apply Hinv in L; subst a'; left.
        apply mem_true_iff; exact M.
    + rewrite in_app_iff; simpl; split.
      * intros [[I|[Q|[]]]|(row & I & L)]; [tauto| |right; eauto].
        right; exists (a' :: b :: c :: more); auto.
      * intros [I|(row & [<-|I] & L)]; [tauto| |right; eauto].
        apply Hinv in L; subst a'; tauto.
Qed.

Lemma readInstance_header (nS nC : Z) (extra : list Z) (rest : matrix) :
  readInstance ((nS :: nC :: extra) :: rest) =
  (positions <- readInstance_rows (skipn 1 rest) Dict.empty ;;
   Ok (range 1 (nS + 1), range (nS + 1) (nS + nC + 1), nS + nC + 1,
       positions)).
Proof. reflexivity. Qed.

(** C6: for a matrix that [readInstance] accepts and whose header counts
    are not negative, the supplier range, the consumer range and the
    cross-dock id are pairwise disjoint, and together they are exactly the
    integers from 1 to nSuppliers + nConsumers + 1. *)
Theorem readInstance_ids_partition
  (nS nC : Z) (extra : list Z) (rest : matrix)
  (suppliers consumers : list Z) (cd : Z) (positions : positions_t) :
  0 <= nS -> 0 <= nC ->
  readInstance ((nS :: nC :: extra) :: rest) =
    Ok (suppliers, consumers, cd, positions) ->
  (forall z, ~ (In z suppliers /\ In z consumers)) /\
  ~ In cd suppliers /\ ~ In cd consumers /\
  NoDup (suppliers ++ consumers ++ [cd]) /\
  suppliers ++ consumers ++ [cd] = range 1 (nS + nC + 1 + 1) /\
  (forall z, In z suppliers \/ In z consumers \/ z = cd <->
             1 <= z <= nS + nC + 1).
Proof.
  intros HS HC R; rewrite readInstance_header in R.
  step_in R; inv R.
  assert (U : range 1 (nS + 1) ++ range (nS + 1) (nS + nC + 1)
                ++ [nS + nC + 1] = range 1 (nS + nC + 1 + 1)).
  { rewrite <- (range_single (nS + nC + 1)).
    rewrite (range_app (nS + 1)), (range_app 1) by lia; reflexivity. }
  refine (conj _ (conj _ (conj _ (conj _ (conj U _))))).
  - intros z [I J]; apply In_range in I, J; lia.
  - intros I; apply In_range in I; lia.
  - intros I; apply In_range in I; lia.
  - rewrite U; apply NoDup_range.
  - intros z; rewrite !In_range; lia.
Qed.

Lemma readInstance_ids_partition_witness :
  (forall z, ~ (In z [1; 2] /\ In z [3])) /\
  ~ In 4 [1; 2] /\ ~ In 4 [3] /\
  NoDup ([1; 2] ++ [3] ++ [4]) /\
  [1; 2] ++ [3] ++ [4] = range 1 (2 + 1 + 1 + 1) /\
  (forall z, In z [1; 2] \/ In z [3] \/ z = 4 <-> 1 <= z <= 2 + 1 + 1).
Proof.
  apply (readInstance_ids_partition 2 1 [] [[9; 9; 9]; [1; 0; 0]; [4; 5; 5]]
           [1; 2] [3] 4 [(1, (0, 0)); (4, (5, 5))]).
  - lia.
  - lia.
  - reflexivity.
Defined.

(** C1, as stated, fails: the first data row of scenario A, [(1, 0, 0)],
    is row 1 of the matrix, and node 1 gets no position. *)
Lemma readInstance_drops_row1 :
  exists suppliers consumers cd positions,
    readInstance scenarioA = Ok (suppliers, consumers, cd, positions) /\
    In [1; 0; 0] (skipn 1 scenarioA) /\
    Dict.get positions 1 = None.
Proof.
  exists [1], [2], 3, [(2, (3, 4))].
  repeat split; simpl; auto.
Qed.

(** C1, amended: when row 0 holds the two counts and every row from row 2
    on holds at least three integers, [readInstance] succeeds (row 1 is
    skipped whatever it holds); the keys of the Position mapping are exactly
    the node ids listed in rows 2..N, and a node id maps to the [(x, y)] of
    the last row that lists it. *)
Theorem readInstance_positions
  (nS nC : Z) (extra row1 : list Z) (rows : matrix) :
  Forall (fun row => (3 <= List.length row)%nat) rows ->
  exists positions,
    readInstance ((nS :: nC :: extra) :: row1 :: rows) =
      Ok (range 1 (nS + 1), range (nS + 1) (nS + nC + 1), nS + nC + 1,
          positions) /\
    wf positions /\
    (forall a, In a (Dict.keys positions) <->
               exists row, In row rows /\ lists_id a row) /\
    (forall before after a b c more,
        rows = before ++ (a :: b :: c :: more) :: after ->
        (forall row, In row after -> ~ lists_id a row) ->
        Dict.get positions a = Some (b, c)).
Proof.
  intros F; rewrite readInstance_header; simpl skipn.
  destruct (readInstance_rows_total rows Dict.empty F) as [ps R].
  exists ps; rewrite R; simpl; repeat split.
  - eapply readInstance_rows_wf; [|exact R]; constructor.
  - intros I; apply (readInstance_rows_keys _ _ _ a R) in I.
    destruct I as [[]|I]; exact I.
  - intros I; apply (readInstance_rows_keys _ _ _ a R); right; exact I.
  - intros before after a b c more -> N.
    rewrite readInstance_rows_app in R; step_in R.
    rewrite (readInstance_rows_keep _ _ _ a R N).
    apply get_set_same.
Qed.

Lemma readInstance_positions_witness :
  exists positions,
    readInstance ([1; 1] :: [0; 0; 0] :: [[1; 0; 0]; [2; 3; 4]]) =
      Ok (range 1 (1 + 1), range (1 + 1) (1 + 1 + 1), 1 + 1 + 1,
          positions) /\
    wf positions /\
    (forall a, In a (Dict.keys positions) <->
               exists row, In row [[1; 0; 0]; [2; 3; 4]] /\ lists_id a row) /\
    (forall before after a b c more,
        [[1; 0; 0]; [2; 3; 4]] = before ++ (a :: b :: c :: more) :: after ->
        (forall row, In row after -> ~ lists_id a row) ->
        Dict.get positions a = Some (b, c)).
Proof.
  apply (readInstance_positions 1 1 [] [0; 0; 0] [[1; 0; 0]; [2; 3; 4]]).
  repeat constructor; simpl; lia.
Defined.

(** ** The cost table *)

Lemma dist2_sym (p q : Z * Z) : dist2 p q = dist2 q p.
Proof. unfold dist2; ring. Qed.

Lemma dist2_diag (p : Z * Z) : dist2 p p = 0.
Proof. unfold dist2; ring. Qed.

Lemma pow_half_0 : pow_half 0 = Ok fzero.
Proof. reflexivity. Qed.

Lemma get_fresh (js : list item) (j : Z) :
  ~ In j (map fst js) -> Dict.get js j = None.
Proof. intros N; apply get_None_iff; exact N. Qed.

Lemma costs_inner_get (i xi yi : Z) (js : list item) :
  forall (costs costs' : costs_t) (k : Z * Z),
    NoDup (map fst js) ->
    costs_inner i xi yi js costs = Ok costs' ->
    Dict.get costs' k =
    match (if fst k =? i then Dict.get js (snd k) else None) with
    | Some q => to_option (pow_half (dist2 (xi, yi) q))
    | None => Dict.get costs k
    end.
Proof.
  induction js as [|[j [xj yj]] js IH]; intros costs costs' k ND R; simpl in R.
  - inv R; destruct (fst k =? i); reflexivity.
  - step_in R; inversion ND as [|? ? Hfresh ND']; subst.
    rewrite (IH _ _ k ND' R), get_set; clear IH R.
    destruct k as [k1 k2]; simpl (Dict.get (_ :: _) _); simpl fst; simpl snd.
    unfold keyb at 1; simpl; unfold pairb; simpl.
    rewrite (Z.eqb_sym i k1).
    destruct (k1 =? i) eqn:E1; simpl; [|reflexivity].
    destruct (j =? k2) eqn:E2; [|reflexivity].
    apply Z.eqb_eq in E2; subst k2.
    rewrite (get_fresh js j Hfresh).
    unfold dist2; simpl; rewrite E; reflexivity.
Qed.

Lemma costs_inner_ok (i xi yi : Z) (js : list item) :
  forall (costs costs' : costs_t) (j : Z) (q : Z * Z),
    costs_inner i xi yi js costs = Ok costs' ->
    In (j, q) js ->
    exists c, pow_half (dist2 (xi, yi) q) = Ok c.
Proof.
  induction js as [|[j' [xj yj]] js IH]; intros costs costs' j q R I;
    simpl in R; [destruct I|].
  step_in R; destruct I as [Q|I].
  - inv Q; exists a; exact E.
  - eapply IH; eauto.
Qed.

Lemma costs_outer_get (rows js : list item) :
  forall (costs costs' : costs_t) (k : Z * Z),
    NoDup (map fst rows) -> NoDup (map fst js) ->
    costs_outer rows js costs = Ok costs' ->
    Dict.get costs' k =
    match Dict.get rows (fst k), Dict.get js (snd k) with
    | Some p, Some q => to_option (pow_half (dist2 p q))
    | _, _ => Dict.get costs k
    end.
Proof.
  induction rows as [|[i [xi yi]] rows IH]; intros costs costs' k NR NJ R;
    simpl in R.
  - inv R; reflexivity.
  - step_in R; inversion NR as [|? ? Hfresh NR']; subst.
    rewrite (IH _ _ k NR' NJ R), (costs_inner_get _ _ _ _ _ _ k NJ E).
    simpl (Dict.get (_ :: _) _).
    rewrite (Z.eqb_sym i (fst k)).
    destruct (fst k =? i) eqn:E1.
    + apply Z.eqb_eq in E1; rewrite E1, (get_fresh rows i Hfresh).
      destruct (Dict.get js (snd k)); reflexivity.
    + destruct (Dict.get rows (fst k)), (Dict.get js (snd k)); reflexivity.
Qed.

Lemma costs_outer_ok (rows js : list item) :
  forall (costs costs' : costs_t) (i j : Z) (p q : Z * Z),
    costs_outer rows js costs = Ok costs' ->
    In (i, p) rows -> In (j, q) js ->
    exists c, pow_half (dist2 p q) = Ok c.
Proof.
  induction rows as [|[i' [xi yi]] rows IH];
    intros costs costs' i j p q R I J; simpl in R; [destruct I|].
  step_in R; destruct I as [Q|I].
  - inv Q; eapply costs_inner_ok; eauto.
  - eapply IH; eauto.
Qed.

(** The table holds, for every pair of positioned nodes, the square root of
    the squared distance, and nothing else. *)
Lemma build_costs_get (positions : positions_t) (costs : costs_t) (i j : Z) :
  wf positions ->
  build_costs positions = Ok costs ->
  match Dict.get positions i, Dict.get positions j with
  | Some p, Some q =>
      exists c, pow_half (dist2 p q) = Ok c /\ Dict.get costs (i, j) = Some c
  | _, _ => Dict.get costs (i, j) = None
  end.
Proof.
  intros W B; unfold build_costs, Dict.items in B.
  pose proof (costs_outer_get _ _ _ _ (i, j) W W B) as G; simpl in G.
  destruct (Dict.get positions i) as [p|] eqn:Gi; [|exact G].
  destruct (Dict.get positions j) as [q|] eqn:Gj; [|exact G].
  destruct (costs_outer_ok _ _ _ _ i j p q B) as [c P];
    [apply In_get; assumption .. |].
  exists c; rewrite G, P; auto.
Qed.

(** C5: in the cost table computed from a Position mapping, the cost from a
    node to itself is 0.0, and the two directions of every pair of nodes
    have the same cost. *)
Theorem costs_zero_diagonal_symmetric
  (positions : positions_t) (costs : costs_t) (i j : Z) :
  wf positions ->
  build_costs positions = Ok costs ->
  In i (Dict.keys positions) -> In j (Dict.keys positions) ->
  Dict.get costs (i, i) = Some fzero /\
  exists c, Dict.get costs (i, j) = Some c /\ Dict.get costs (j, i) = Some c.
Proof.
  intros W B Ii Ij.
  pose proof (build_costs_get positions costs i i W B) as Dii.
  pose proof (build_costs_get positions costs i j W B) as Dij.
  pose proof (build_costs_get positions costs j i W B) as Dji.
  destruct (Dict.get positions i) as [p|] eqn:Gi;
    [|apply get_None_iff in Gi; contradiction].
  destruct (Dict.get positions j) as [q|] eqn:Gj;
    [|apply get_None_iff in Gj; contradiction].
  destruct Dii as (c0 & P0 & G0), Dij as (c & P & G), Dji as (c' & P' & G').
  rewrite dist2_diag, pow_half_0 in P0; inv P0.
  rewrite dist2_sym, P in P'; inv P'.
  split; [exact G0 | exists c'; auto].
Qed.

Lemma costs_zero_diagonal_symmetric_witness :
  Dict.get costsA (1, 1) = Some fzero /\
  exists c, Dict.get costsA (1, 2) = Some c /\ Dict.get costsA (2, 1) = Some c.
Proof.
  apply (costs_zero_diagonal_symmetric positionsA costsA 1 2).
  - repeat constructor; simpl; intuition discriminate.
  - vm_compute; reflexivity.
  - simpl; auto.
  - simpl; auto.
Defined.

(** ** readResult *)

Lemma ints_raise (words : list string) (e : exn) :
  ints words = Raise e -> e = ValueError.
Proof.
  revert e; induction words as [|x words IH]; intros e; simpl; [discriminate|].
  unfold py_int; destruct (int_literal x); simpl; [|intros [= <-]; reflexivity].
  destruct (ints words); simpl; [discriminate|].
  intros [= <-]; apply IH; reflexivity.
Qed.

Lemma ints_ok (words : list string) (ns : list Z) :
  ints words = Ok ns <-> map int_literal words = map Some ns.
Proof.
  revert ns; induction words as [|x words IH]; intros ns; simpl.
  - destruct ns; simpl; split; intros E; inv E; reflexivity.
  - unfold py_int; destruct (int_literal x) as [n|]; simpl.
    + destruct (ints words) as [ms|e]; simpl.
      * split.
        -- intros [= <-]; simpl; f_equal; apply IH; reflexivity.
        -- destruct ns as [|n' ns]; simpl; intros [= -> E].
           apply IH in E; inv E; reflexivity.
      * split; [discriminate|].
        destruct ns as [|n' ns]; simpl; intros [= -> E].
        apply IH in E; discriminate.
    + split; [discriminate|]; destruct ns; discriminate.
Qed.

(** The loop body on one line, by the format of the line. *)
Lemma readResult_line_spec (line : string) (suppliersRoute : route_t) :
  readResult_line line suppliersRoute =
  if qualifies line then
    match parse_line line with
    | Some t => Ok (add_edge suppliersRoute t)
    | None => Raise ValueError
    end
  else Ok suppliersRoute.
Proof.
  unfold readResult_line, qualifies, parse_line.
  destruct (1 <? List.length (split line))%nat; [|reflexivity].
  destruct (ints (split line)) as [ns|e] eqn:E; simpl.
  - apply ints_ok in E; rewrite E.
    destruct ns as [|a [|b [|c [|d ns]]]]; reflexivity.
  - pose proof (ints_raise _ _ E) as ->.
    destruct (map int_literal (split line))
      as [|[a|] [|[b|] [|[c|] [|d os]]]] eqn:M; try reflexivity.
    assert (X : ints (split line) = Ok [a; b; c])
      by (apply ints_ok; exact M).
    congruence.
Qed.

Lemma triples_cons (line : string) (lines : list string) :
  triples (line :: lines) =
  match (if qualifies line then parse_line line else None) with
  | Some t => t :: triples lines
  | None => triples lines
  end.
Proof. reflexivity. Qed.

(** The reader either folds [add_edge] over the triples of the file or
    stops with [ValueError] at a malformed line. *)
Lemma readResult_lines_spec (lines : list string) :
  forall init : route_t,
    (Forall line_ok lines /\
     readResult_lines lines init = Ok (fold_left add_edge (triples lines) init))
    \/
    (~ Forall line_ok lines /\ readResult_lines lines init = Raise ValueError).
Proof.
  induction lines as [|line lines IH]; intros init.
  - left; split; [constructor|reflexivity].
  - cbn [readResult_lines]; rewrite readResult_line_spec, triples_cons.
    destruct (qualifies line) eqn:Q.
    + destruct (parse_line line) as [t|] eqn:P; simpl.
      * destruct (IH (add_edge init t)) as [[F R]|[F R]]; [left|right];
          (split; [|exact R]).
        -- constructor; [|exact F].
           intros _; rewrite P; discriminate.
        -- intros F'; inv F'; contradiction.
      * right; split; [|reflexivity].
        intros F; inv F.
        match goal with H : line_ok line |- _ => apply H; auto end.
    + simpl; destruct (IH init) as [[F R]|[F R]]; [left|right];
        (split; [|exact R]).
      * constructor; [|exact F].
        intros Q'; congruence.
      * intros F'; inv F'; contradiction.
Qed.

Lemma In_triples (lines : list string) (t : Z * edge) :
  In t (triples lines) ->
  exists line,
    In line lines /\ qualifies line = true /\ parse_line line = Some t.
Proof.
  induction lines as [|line lines IH]; simpl; [intros []|].
  destruct (qualifies line) eqn:Q.
  - destruct (parse_line line) as [t'|] eqn:P.
    + intros [<-|I]; [exists line; auto|].
      destruct (IH I) as (l & ? & ? & ?); exists l; auto.
    + intros I; destruct (IH I) as (l & ? & ? & ?); exists l; auto.
  - intros I; destruct (IH I) as (l & ? & ? & ?); exists l; auto.
Qed.

(** *** Folding [add_edge] *)

Lemma mem_set {K V : Type} `{Key K} (d : Dict.t K V) (k k' : K) (v : V) :
  Dict.mem (Dict.set d k v) k' = keyb k k' || Dict.mem d k'.
Proof.
  unfold Dict.mem; rewrite get_set; destruct (keyb k k'); reflexivity.
Qed.

Lemma filter_filter {A : Type} (f g : A -> bool) (l : list A) :
  filter f (filter g l) = filter (fun x => g x && f x) l.
Proof.
  induction l as [|x l IH]; simpl; [reflexivity|].
  destruct (g x); simpl; [destruct (f x)|]; rewrite IH; reflexivity.
Qed.

Lemma In_first_seen (l : list Z) (x : Z) : In x (first_seen l) <-> In x l.
Proof.
  induction l as [|a l IH]; simpl; [tauto|].
  rewrite filter_In, IH, negb_true_iff, Z.eqb_neq.
  destruct (Z.eq_dec a x); [tauto|].
  split; [tauto|]; intros [?|?]; [tauto|]; right; split; auto.
Qed.

Lemma NoDup_first_seen (l : list Z) : NoDup (first_seen l).
Proof.
  induction l as [|a l IH]; simpl; constructor.
  - rewrite filter_In, Z.eqb_refl; simpl; intros [_ ?]; discriminate.
  - apply NoDup_filter; exact IH.
Qed.

Lemma fold_add_edge_keys (ts : list (Z * edge)) :
  forall init : route_t,
    Dict.keys (fold_left add_edge ts init) =
    Dict.keys init
      ++ filter (fun x => negb (Dict.mem init x)) (first_seen (map fst ts)).
Proof.
  induction ts as [|[a e] ts IH]; intros init; simpl.
  - rewrite app_nil_r; reflexivity.
  - rewrite IH; unfold add_edge at 1 2; simpl fst; simpl snd.
    rewrite keys_set, filter_filter.
    destruct (Dict.mem init a) eqn:M; simpl.
    + f_equal; apply filter_ext; intros x; rewrite mem_set.
      simpl; rewrite (Z.eqb_sym a x).
      destruct (x =? a), (Dict.mem init x); reflexivity.
    + rewrite <- app_assoc; simpl; do 2 f_equal.
      apply filter_ext; intros x; rewrite mem_set.
      simpl; rewrite (Z.eqb_sym a x).
      destruct (x =? a), (Dict.mem init x); reflexivity.
Qed.

Lemma fold_add_edge_get (ts : list (Z * edge)) (owner : Z) :
  forall init : route_t,
    Dict.get_default (fold_left add_edge ts init) owner [] =
    Dict.get_default init owner [] ++ edges_of owner ts.
Proof.
  unfold edges_of.
  induction ts as [|[a e] ts IH]; intros init; simpl.
  - rewrite app_nil_r; reflexivity.
  - rewrite IH; unfold add_edge, Dict.get_default at 1; simpl fst; simpl snd.
    rewrite get_set; simpl.
    destruct (a =? owner) eqn:E; simpl.
    + apply Z.eqb_eq in E; subst a; rewrite <- app_assoc; reflexivity.
    + reflexivity.
Qed.

Lemma fold_add_edge_wf (ts : list (Z * edge)) :
  forall init : route_t, wf init -> wf (fold_left add_edge ts init).
Proof.
  induction ts as [|t ts IH]; intros init W; simpl; [exact W|].
  apply IH; unfold add_edge; auto with dict.
Qed.

Lemma edges_of_nonempty (ts : list (Z * edge)) (owner : Z) :
  In owner (map fst ts) -> edges_of owner ts <> [].
Proof.
  unfold edges_of; intros I; apply in_map_iff in I.
  destruct I as ([a e] & <- & I); simpl.
  intros E; apply map_eq_nil in E.
  assert (X : In (a, e) (filter (fun t => fst t =? a) ts))
    by (apply filter_In; split; [exact I|apply Z.eqb_refl]).
  rewrite E in X; exact X.
Qed.

(** The mapping that [readResult] returns for a well-formed file. *)
Lemma readResult_ok (lines : list string) (route : route_t) :
  readResult lines = Ok route ->
  Forall line_ok lines /\
  wf route /\
  Dict.keys route = first_seen (map fst (triples lines)) /\
  (forall owner,
      Dict.get route owner =
      if Dict.mem route owner then Some (edges_of owner (triples lines))
      else None).
Proof.
  unfold readResult; intros R.
  destruct (readResult_lines_spec lines Dict.empty) as [[F R']|[_ R']];
    [|congruence].
  rewrite R' in R; inv R; split; [exact F|]; split; [|split].
  - apply fold_add_edge_wf; constructor.
  - rewrite fold_add_edge_keys; simpl.
    induction (first_seen (map fst (triples lines))); simpl; congruence.
  - intros owner.
    pose proof (fold_add_edge_get (triples lines) owner Dict.empty) as G.
    unfold Dict.mem, Dict.get_default in *.
    destruct (Dict.get (fold_left add_edge (triples lines) Dict.empty) owner);
      [|reflexivity].
    simpl in G; congruence.
Qed.

(** C4: [readResult] leaves the mapping unchanged on a line with zero or
    one token and appends the edge of a line [owner from to] to that
    owner's list; for a file whose other lines all have that format, the
    owners of the returned mapping come in first-seen order and each
    owner's list holds its edges in file order. *)
Theorem readResult_groups_in_order (lines : list string) :
  Forall line_ok lines ->
  (forall line suppliersRoute,
      qualifies line = false ->
      readResult_line line suppliersRoute = Ok suppliersRoute) /\
  (forall line suppliersRoute a b c,
      qualifies line = true ->
      parse_line line = Some (a, (b, c)) ->
      readResult_line line suppliersRoute =
        Ok (Dict.set suppliersRoute a
              (Dict.get_default suppliersRoute a [] ++ [(b, c)]))) /\
  exists route,
    readResult lines = Ok route /\
    Dict.keys route = first_seen (map fst (triples lines)) /\
    (forall owner,
        In owner (Dict.keys route) ->
        Dict.get route owner = Some (edges_of owner (triples lines))).
Proof.
  intros F; split; [|split].
  - intros line r Q; rewrite readResult_line_spec, Q; reflexivity.
  - intros line r a b c Q P; rewrite readResult_line_spec, Q, P; reflexivity.
  - destruct (readResult_lines_spec lines Dict.empty) as [[_ R]|[N _]];
      [|contradiction].
    exists (fold_left add_edge (triples lines) Dict.empty).
    destruct (readResult_ok _ _ R) as (_ & _ & Keys & Get).
    split; [exact R|split; [exact Keys|]].
    intros owner I; rewrite Get.
    apply mem_true_iff in I; rewrite I; reflexivity.
Qed.

Lemma sample_result_ok : Forall line_ok sample_result.
Proof.
  repeat (apply Forall_cons || apply Forall_nil);
    intros Q; vm_compute in Q; try discriminate Q; vm_compute; discriminate.
Qed.

Lemma readResult_groups_in_order_witness :
  Forall line_ok sample_result /\
  exists route,
    readResult sample_result = Ok route /\
    Dict.keys route = first_seen (map fst (triples sample_result)) /\
    (forall owner,
        In owner (Dict.keys route) ->
        Dict.get route owner = Some (edges_of owner (triples sample_result))).
Proof.
  split; [exact sample_result_ok|].
  exact (proj2 (proj2 (readResult_groups_in_order sample_result
                         sample_result_ok))).
Defined.

Example readResult_sample :
  readResult sample_result =
    Ok [(2, [(5, 6); (6, 7)]); (1, [(1, 2); (2, 30)])].
Proof. vm_compute; reflexivity. Qed.

(** C9: a line with two or more tokens that is not three integers makes
    [readResult] raise [ValueError], wherever it stands in the file. *)
Theorem malformed_line_is_value_error (lines : list string) (line : string) :
  In line lines ->
  qualifies line = true ->
  parse_line line = None ->
  readResult lines = Raise ValueError.
Proof.
  intros I Q P; unfold readResult.
  destruct (readResult_lines_spec lines Dict.empty) as [[F _]|[_ R]];
    [|exact R].
  rewrite Forall_forall in F; specialize (F line I Q); contradiction.
Qed.

Lemma malformed_line_is_value_error_witness :
  readResult ["1 1 2"; "TotalObjective 42"]%string = Raise ValueError.
Proof.
  apply (malformed_line_is_value_error
           ["1 1 2"; "TotalObjective 42"]%string "TotalObjective 42"%string).
  - simpl; auto.
  - reflexivity.
  - reflexivity.
Defined.

(** C10: every owner of the mapping that [readResult] returns has a
    non-empty edge list, and each of its edges stands on a qualifying line
    of the file that names the owner. *)
Theorem readResult_owner_has_edges
  (lines : list string) (route : route_t) (owner : Z) (edges : list edge) :
  readResult lines = Ok route ->
  In (owner, edges) route ->
  edges <> [] /\
  (exists line b c,
      In line lines /\ qualifies line = true /\
      parse_line line = Some (owner, (b, c))) /\
  (forall b c,
      In (b, c) edges ->
      exists line,
        In line lines /\ qualifies line = true /\
        parse_line line = Some (owner, (b, c))).
Proof.
  intros R I.
  destruct (readResult_ok _ _ R) as (_ & W & Keys & Get).
  assert (Ik : In owner (Dict.keys route))
    by (apply (in_map fst) in I; exact I).
  pose proof (get_In _ _ _ W I) as G; rewrite Get in G.
  apply mem_true_iff in Ik as M; rewrite M in G; inv G.
  rewrite Keys in Ik; apply (proj1 (In_first_seen _ _)) in Ik.
  split; [apply edges_of_nonempty; exact Ik|split].
  - apply in_map_iff in Ik; destruct Ik as ([a [b c]] & <- & It).
    destruct (In_triples _ _ It) as (line & ? & ? & ?).
    exists line, b, c; auto.
  - intros b c Ie; unfold edges_of in Ie; apply in_map_iff in Ie.
    destruct Ie as ([a e] & E & If); simpl in E; subst e.
    apply filter_In in If; destruct If as [It Ea]; simpl in Ea.
    apply Z.eqb_eq in Ea; subst a.
    destruct (In_triples _ _ It) as (line & ? & ? & ?).
    exists line; auto.
Qed.

Lemma readResult_owner_has_edges_witness :
  [(2, 1)] <> [] /\
  (exists line b c,
      In line scenarioC /\ qualifies line = true /\
      parse_line line = Some (2, (b, c))) /\
  (forall b c,
      In (b, c) [(2, 1)] ->
      exists line,
        In line scenarioC /\ qualifies line = true /\
        parse_line line = Some (2, (b, c))).
Proof.
  apply (readResult_owner_has_edges scenarioC routeC 2 [(2, 1)]).
  - reflexivity.
  - simpl; auto.
Defined.

(** ** The aggregation loop *)

Lemma covers_app (costs : costs_t) (l1 l2 : list edge) :
  covers costs (l1 ++ l2) <-> covers costs l1 /\ covers costs l2.
Proof.
  unfold covers; split.
  - intros C; split; intros e I; apply C; apply in_or_app; auto.
  - intros [C1 C2] e I; apply in_app_or in I; destruct I; auto.
Qed.

Lemma covers_cons (costs : costs_t) (e : edge) (l : list edge) :
  covers costs (e :: l) <-> Dict.get costs e <> None /\ covers costs l.
Proof.
  unfold covers; simpl; split.
  - intros C; split; [|intros e' I]; apply C; auto.
  - intros [C1 C2] e' [<-|I]; auto.
Qed.

(** The inner loop either adds up the listed costs or stops with
    [KeyError] at an edge the table lacks. *)
Lemma sum_edges_spec (costs : costs_t) (edges : list edge) :
  forall total,
    (covers costs edges /\
     sum_edges costs edges total = Ok (fold_left (add_cost costs) edges total))
    \/
    (~ covers costs edges /\ sum_edges costs edges total = Raise KeyError).
Proof.
  induction edges as [|[a b] edges IH]; intros total; simpl.
  - left; split; [intros e []|reflexivity].
  - unfold Dict.lookup, add_cost at 2, cost_at, Dict.get_default.
    destruct (Dict.get costs (a, b)) as [c|] eqn:G; simpl.
    + destruct (IH (fadd total c)) as [[C R]|[C R]]; [left|right];
        (split; [|exact R]); rewrite covers_cons, G.
      * split; [discriminate|exact C].
      * tauto.
    + right; split; [|reflexivity].
      rewrite covers_cons, G; tauto.
Qed.

Lemma drawn_app (out1 out2 : list event) :
  drawn (out1 ++ out2) = (drawn out1 + drawn out2)%nat.
Proof. unfold drawn; rewrite filter_app, length_app; reflexivity. Qed.

Lemma style_Some (i : nat) (style : string) :
  nth_error styles i = Some style -> (i < 2)%nat.
Proof.
  intros E; change 2%nat with (List.length styles).
  apply nth_error_Some; rewrite E; discriminate.
Qed.

Lemma style_None (i : nat) : nth_error styles i = None -> (2 <= i)%nat.
Proof. intros E; apply nth_error_None in E; exact E. Qed.

Section Loop.
Variable lib : library.
Variable costs : costs_t.

(** One round of the loop. *)
Lemma totalCost_loop_cons (i : nat) (edges : list edge)
  (routes : list (list edge)) (total : float) (out : list event) :
  totalCost_loop lib costs i (edges :: routes) total out =
  match sum_edges costs edges total with
  | Raise e => (out, Raise e)
  | Ok total' =>
      match lib out (AddEdges edges) with
      | Some e => (out, Raise e)
      | None =>
          let out1 := (out ++ [AddEdges edges]) ++ [PrintEdges edges] in
          match nth_error styles i with
          | None => (out1, Raise IndexError)
          | Some style =>
              match lib out1 (DrawEdges edges "k" style) with
              | Some e => (out1, Raise e)
              | None =>
                  totalCost_loop lib costs (S i) routes total'
                    (out1 ++ [DrawEdges edges "k" style])
              end
          end
      end
  end.
Proof.
  cbn [totalCost_loop]; unfold io_bind, lift, call, print.
  destruct (sum_edges costs edges total) as [total'|e]; [|reflexivity].
  destruct (lib out (AddEdges edges)); [reflexivity|].
  destruct i as [|[|[|i]]]; cbn; try reflexivity.
  - destruct (lib _ _); reflexivity.
  - destruct (lib _ _); reflexivity.
Qed.

(** A total comes out only of a covered mapping with at most [2 - i]
    routes, and it is the sum over the flattened list. *)
Lemma totalCost_loop_ok (routes : list (list edge)) :
  forall (i : nat) (total : float) (out : list event) (total' : float),
    snd (totalCost_loop lib costs i routes total out) = Ok total' ->
    covers costs (flattened routes) /\
    (List.length routes <= 2 - i)%nat /\
    total' = fold_left (add_cost costs) (flattened routes) total.
Proof.
  unfold flattened.
  induction routes as [|edges routes IH]; intros i total out total'.
  - cbn; intros [= <-]; repeat split; [intros e []|lia].
  - rewrite totalCost_loop_cons; cbn [List.concat List.length].
    destruct (sum_edges_spec costs edges total) as [[C R]|[C R]]; rewrite R;
      [|discriminate].
    destruct (lib out (AddEdges edges)); [discriminate|]; cbv zeta.
    destruct (nth_error styles i) as [style|] eqn:Sty; [|discriminate].
    apply style_Some in Sty.
    destruct (lib _ (DrawEdges edges "k" style)); [discriminate|].
    intros E; apply IH in E; destruct E as (C' & L & ->).
    split; [apply covers_app; auto|split; [lia|]].
    symmetry; apply fold_left_app.
Qed.


Hypothesis lib_returns : returns lib.

(** With a library that returns, the loop stops only at a missing cost or
    at the style of a third route. *)
Lemma totalCost_loop_raise (routes : list (list edge)) :
  forall (i : nat) (total : float) (out : list event) (e : exn),
    snd (totalCost_loop lib costs i routes total out) = Raise e ->
    (e = KeyError /\ ~ covers costs (flattened routes)) \/
    (e = IndexError /\ (2 - i < List.length routes)%nat /\
     covers costs (flattened (firstn (3 - i) routes))).
Proof.
  unfold flattened.
  induction routes as [|edges routes IH]; intros i total out e.
  - cbn; discriminate.
  - rewrite totalCost_loop_cons, !lib_returns; cbn [List.concat List.length].
    destruct (sum_edges_spec costs edges total) as [[C R]|[C R]]; rewrite R.
    + cbv zeta; destruct (nth_error styles i) as [style|] eqn:Sty.
      * apply style_Some in Sty; rewrite lib_returns.
        intros E; apply IH in E.
        destruct E as [[-> N]|(-> & L & C')]; [left|right].
        -- split; [reflexivity|]; rewrite covers_app; tauto.
        -- split; [reflexivity|]; split; [lia|].
           replace (3 - i)%nat with (S (3 - S i)) by lia.
           rewrite firstn_cons; cbn [List.concat]; apply covers_app; auto.
      * apply style_None in Sty; cbn [snd]; intros [= <-]; right.
        split; [reflexivity|]; split; [lia|].
        destruct (3 - i)%nat as [|n] eqn:D; [intros e []|].
        assert (n = 0)%nat by lia; subst n.
        rewrite firstn_cons, firstn_O; cbn [List.concat].
        rewrite app_nil_r; exact C.
    + cbn [snd]; intros [= <-]; left; split; [reflexivity|].
      rewrite covers_app; tauto.
Qed.

Lemma totalCost_loop_total (routes : list (list edge)) (i : nat)
  (total : float) (out : list event) :
  covers costs (flattened routes) ->
  (List.length routes <= 2 - i)%nat ->
  snd (totalCost_loop lib costs i routes total out) =
    Ok (fold_left (add_cost costs) (flattened routes) total).
Proof.
  intros C L.
  destruct (snd (totalCost_loop lib costs i routes total out))
    as [total'|e] eqn:E.
  - apply totalCost_loop_ok in E; destruct E as (_ & _ & ->); reflexivity.
  - apply totalCost_loop_raise in E.
    destruct E as [[_ N]|(_ & L' & _)]; [contradiction|lia].
Qed.


End Loop.

(** ** The script *)

Lemma io_bind_ok {A B : Type} (m : io A) (k : A -> io B)
  (out : list event) (b : B) :
  snd (io_bind m k out) = Ok b ->
  exists a, snd (m out) = Ok a /\ snd (k a (fst (m out))) = Ok b.
Proof.
  unfold io_bind; destruct (m out) as [out' [a|e]]; cbn [fst snd].
  - intros E; exists a; auto.
  - discriminate.
Qed.


Lemma draws_lift {A : Type} (r : result A) : draws_at_most 0 (lift r).
Proof. intros out; unfold lift; cbn [fst]; lia. Qed.

Lemma draws_ret {A : Type} (a : A) : draws_at_most 0 (ret a).
Proof. intros out; unfold ret; cbn [fst]; lia. Qed.

Lemma draws_print (ev : event) :
  is_draw_edges ev = false -> draws_at_most 0 (print ev).
Proof.
  intros N out; unfold print; cbn [fst].
  rewrite drawn_app; unfold drawn at 2; cbn; rewrite N; cbn; lia.
Qed.

Lemma draws_call (lib : library) (ev : event) :
  is_draw_edges ev = false -> draws_at_most 0 (call lib ev).
Proof.
  intros N out; unfold call; destruct (lib out ev); cbn [fst]; [lia|].
  rewrite drawn_app; unfold drawn at 2; cbn; rewrite N; cbn; lia.
Qed.

#[export] Hint Resolve draws_lift draws_ret draws_print draws_call : dict.

(** [readInstance] as it runs returns what [readInstance] returns and
    prints the rows it got through. *)
Lemma readInstance_rows_printing_spec (rows : matrix) :
  forall (positions : positions_t) (out : list event),
    readInstance_rows_printing rows positions out =
    (out ++ printed_rows rows, readInstance_rows rows positions).
Proof.
  induction rows as [|row rows IH]; intros positions out.
  - cbn; rewrite app_nil_r; reflexivity.
  - cbn [readInstance_rows_printing readInstance_rows printed_rows].
    unfold io_bind at 1, lift at 1.
    destruct row as [|a [|b [|c more]]];
      try (cbn; rewrite app_nil_r; reflexivity).
    rewrite (proj2 (unpack3_firstn _ a b c)) by eauto; cbn [bind].
    unfold io_bind, print; rewrite IH, <- app_assoc; reflexivity.
Qed.

Lemma readInstance_printing_spec (inputData : matrix) (out : list event) :
  readInstance_printing inputData out =
  (out ++ readInstance_output inputData, readInstance inputData).
Proof.
  unfold readInstance_printing, readInstance, readInstance_output.
  destruct inputData as [|[|nS [|nC extra]] rest];
    try (cbn; rewrite app_nil_r; reflexivity).
  unfold io_bind, lift, ret; cbn [index nth_error bind].
  rewrite readInstance_rows_printing_spec.
  destruct (readInstance_rows _ _); reflexivity.
Qed.



Section ScriptFacts.
Variable lib : library.




Lemma report_ok (total total' : float) (out : list event) :
  snd (report lib total out) = Ok total' ->
  total' = total /\ In (PrintTotal total) (fst (report lib total out)).
Proof.
  unfold report, io_bind, print, call, ret.
  repeat match goal with
         | |- context [lib ?o ?ev] => destruct (lib o ev)
         end; cbn [fst snd]; try discriminate.
  intros [= <-]; split; [reflexivity|].
  rewrite !in_app_iff; cbn; tauto.
Qed.

(** The script, step by step. *)
Lemma script_run (inputData : matrix) (resultLines : list string) :
  run (script lib inputData resultLines) =
  let out0 := PrintFiles :: readInstance_output inputData in
  match readInstance inputData with
  | Raise e => (out0, Raise e)
  | Ok (suppliers, consumers, cd, positions) =>
      match build_costs positions with
      | Raise e => (out0, Raise e)
      | Ok costs =>
          match readResult resultLines with
          | Raise e => (out0, Raise e)
          | Ok suppliersRoute =>
              match draw_nodes lib suppliers consumers cd out0 with
              | (out, Raise e) => (out, Raise e)
              | (out, Ok _) =>
                  match totalCost lib costs suppliersRoute out with
                  | (out', Raise e) => (out', Raise e)
                  | (out', Ok total) => report lib total out'
                  end
              end
          end
      end
  end.
Proof.
  unfold run, script.
  unfold io_bind at 1, print at 1; cbn [app].
  unfold io_bind at 1; rewrite readInstance_printing_spec; cbn [app].
  unfold io_bind, lift; cbv zeta.
  destruct (readInstance inputData) as [[[[s c] cd] ps]|e]; [|reflexivity].
  destruct (build_costs ps) as [costs|e]; [|reflexivity].
  destruct (readResult resultLines) as [route|e]; reflexivity.
Qed.

(** A run that returns a total went through the three readers and the
    loop, and printed that total. *)
Lemma script_ok (inputData : matrix) (resultLines : list string)
  (total : float) :
  snd (run (script lib inputData resultLines)) = Ok total ->
  exists suppliers consumers cd positions costs suppliersRoute out,
    readInstance inputData = Ok (suppliers, consumers, cd, positions) /\
    build_costs positions = Ok costs /\
    readResult resultLines = Ok suppliersRoute /\
    snd (totalCost lib costs suppliersRoute out) = Ok total /\
    In (PrintTotal total) (fst (run (script lib inputData resultLines))).
Proof.
  rewrite script_run; cbv zeta.
  destruct (readInstance inputData) as [[[[s c] cd] ps]|e] eqn:RI;
    [|discriminate].
  destruct (build_costs ps) as [costs|e] eqn:BC; [|discriminate].
  destruct (readResult resultLines) as [route|e] eqn:RR; [|discriminate].
  destruct (draw_nodes lib s c cd _) as [out [[]|e]]; [|discriminate].
  destruct (totalCost lib costs route out) as [out' [t|e]] eqn:T;
    [|discriminate].
  intros E; apply report_ok in E; destruct E as [-> I].
  exists s, c, cd, ps, costs, route, out; rewrite T; auto 6.
Qed.

Hypothesis lib_returns : returns lib.

(** With a library that returns, the script past its readers is the loop
    between the preamble and the epilogue. *)
Lemma script_after_readers (inputData : matrix) (resultLines : list string)
  (suppliers consumers : list Z) (cd : Z) (positions : positions_t)
  (costs : costs_t) (suppliersRoute : route_t) :
  readInstance inputData = Ok (suppliers, consumers, cd, positions) ->
  build_costs positions = Ok costs ->
  readResult resultLines = Ok suppliersRoute ->
  run (script lib inputData resultLines) =
  match totalCost lib costs suppliersRoute
          (preamble inputData suppliers consumers cd)
  with
  | (out, Ok total) => (out ++ epilogue total, Ok total)
  | (out, Raise e) => (out, Raise e)
  end.
Proof.
  intros RI BC RR; rewrite script_run, RI, BC, RR; cbv zeta.
  unfold draw_nodes, io_bind, print, call.
  rewrite !lib_returns.
  replace ((((((((PrintFiles :: readInstance_output inputData)
                   ++ [PrintNodes (suppliers ++ consumers ++ [cd])])
                  ++ [NewGraph])
                 ++ [AddNodes (suppliers ++ consumers ++ [cd])])
                ++ [DrawLabels (suppliers ++ consumers ++ [cd])])
               ++ [DrawNodes suppliers "r"])
              ++ [DrawNodes consumers "g"])
             ++ [DrawNodes [cd] "b"])
    with (preamble inputData suppliers consumers cd)
    by (unfold preamble; cbn [app]; rewrite <- !app_assoc; reflexivity).
  destruct (totalCost lib costs suppliersRoute _) as [out [total|e]];
    [|reflexivity].
  unfold report, io_bind, print, call, ret.
  rewrite !lib_returns, <- !app_assoc; reflexivity.
Qed.

End ScriptFacts.

Lemma quiet_returns : returns quiet.
Proof. intros out ev; reflexivity. Qed.

Lemma length_values_keys {K V : Type} (d : Dict.t K V) :
  List.length (Dict.values d) = List.length (Dict.keys d).
Proof. unfold Dict.values, Dict.keys; rewrite !length_map; reflexivity. Qed.

(** ** Scenario A *)

Lemma float_of_int_5 : float_of_int 5 = Ok five.
Proof. reflexivity. Qed.

Lemma pow_half_25 : pow_half (3 ^ 2 + 4 ^ 2) = Ok five.
Proof. vm_compute; reflexivity. Qed.

(** C2, as stated, fails: with [(1, 0, 0)] in row 1 the reader keeps only
    node 2, the table has no cost for the edge [(1, 2)], and the script
    stops with [KeyError]; whatever the drawing library does, no total is
    reported. *)
Lemma scenarioA_total_fails :
  snd (run (script quiet scenarioA ["1 1 2"%string])) = Raise KeyError /\
  (forall lib total,
      snd (run (script lib scenarioA ["1 1 2"%string])) <> Ok total).
Proof.
  split; [vm_compute; reflexivity|].
  intros lib total E; apply script_ok in E.
  destruct E as (s & c & cd & ps & costs & route & out
                 & RI & BC & RR & T & _).
  vm_compute in RI; inv RI.
  vm_compute in BC; inv BC.
  vm_compute in RR; inv RR.
  apply totalCost_loop_ok in T; destruct T as (C & _).
  apply (C (1, 2)); [left; reflexivity|reflexivity].
Qed.

(** C2, amended: for the instance of scenario A [readInstance] yields the
    cross-dock id 3; when the data rows [(1, 0, 0)] and [(2, 3, 4)] are
    rows 2 and 3 of the matrix (after one row that the reader skips), the
    result file with the single line [1 1 2] gives the total cost 5.0: any
    total the script returns is 5.0, and it returns and prints it when the
    drawing calls return. *)
Theorem scenarioA_from_row2 (row1 : list Z) (lib : library) :
  (exists suppliers consumers positions,
      readInstance scenarioA = Ok (suppliers, consumers, 3, positions)) /\
  (forall total,
      snd (run (script lib ([1; 1] :: row1 :: [[1; 0; 0]; [2; 3; 4]])
                  ["1 1 2"%string])) = Ok total ->
      total = five) /\
  (returns lib ->
   run (script lib ([1; 1] :: row1 :: [[1; 0; 0]; [2; 3; 4]])
          ["1 1 2"%string]) =
   (preamble ([1; 1] :: row1 :: [[1; 0; 0]; [2; 3; 4]]) [1] [2] 3
      ++ round [(1, 2)] "solid" ++ epilogue five,
    Ok five)).
Proof.
  split; [|split].
  - exists [1], [2], [(2, (3, 4))]; reflexivity.
  - intros total E; apply script_ok in E.
    destruct E as (s & c & cd & ps & costs & route & out
                   & RI & BC & RR & T & _).
    vm_compute in RI; inv RI.
    vm_compute in BC; inv BC.
    vm_compute in RR; inv RR.
    apply totalCost_loop_ok in T; destruct T as (_ & _ & ->).
    vm_compute; reflexivity.
  - intros H.
    rewrite (script_after_readers lib H _ _ [1] [2] 3 positionsA costsA
               [(1, [(1, 2)])]); try (vm_compute; reflexivity).
    unfold totalCost; cbn [Dict.values map snd].
    rewrite totalCost_loop_cons, !H; cbn [nth_error styles]; cbv zeta.
    rewrite H; cbn [totalCost_loop ret].
    replace (sum_edges costsA [(1, 2)] fzero) with (Ok five)
      by (vm_compute; reflexivity).
    unfold round; rewrite <- !app_assoc; reflexivity.
Qed.

(** ** Totals and failures of the loop *)

(** C3: whenever the loop or the script reports a total, it is the sum of
    [Cost] over the flattened edge list, taken in the mapping's order; and
    the loop does report it when the table covers the edges, the mapping
    has at most two owners (the loop has two line styles) and the drawing
    calls return. *)
Theorem totalCost_is_resum
  (lib : library) (costs : costs_t) (suppliersRoute : route_t) :
  (forall out total,
      snd (totalCost lib costs suppliersRoute out) = Ok total ->
      total = resum costs (flattened (Dict.values suppliersRoute))) /\
  (returns lib ->
   covers costs (flattened (Dict.values suppliersRoute)) ->
   (List.length (Dict.keys suppliersRoute) <= 2)%nat ->
   forall out,
     snd (totalCost lib costs suppliersRoute out) =
       Ok (resum costs (flattened (Dict.values suppliersRoute)))) /\
  (forall inputData resultLines suppliers consumers cd positions total,
      readInstance inputData = Ok (suppliers, consumers, cd, positions) ->
      build_costs positions = Ok costs ->
      readResult resultLines = Ok suppliersRoute ->
      snd (run (script lib inputData resultLines)) = Ok total ->
      In (PrintTotal total) (fst (run (script lib inputData resultLines))) /\
      total = resum costs (flattened (Dict.values suppliersRoute))).
Proof.
  assert (P1 : forall out total,
             snd (totalCost lib costs suppliersRoute out) = Ok total ->
             total = resum costs (flattened (Dict.values suppliersRoute))).
  { intros out total E; apply totalCost_loop_ok in E.
    destruct E as (_ & _ & ->); reflexivity. }
  split; [exact P1|split].
  - intros H C Len out; rewrite <- length_values_keys in Len.
    apply totalCost_loop_total; [exact H|exact C|exact Len].
  - intros inputData resultLines suppliers consumers cd positions total
      RI BC RR E.
    destruct (script_ok _ _ _ _ E)
      as (s & c & cd' & ps & costs' & route & out
          & RI' & BC' & RR' & T & I).
    split; [exact I|].
    assert (ps = positions) by congruence; subst ps.
    assert (costs' = costs) by congruence; subst costs'.
    assert (route = suppliersRoute) by congruence; subst route.
    exact (P1 out total T).
Qed.

Lemma totalCost_loop_key_error (lib : library) (costs : costs_t)
  (routes : list (list edge)) :
  returns lib ->
  forall (i : nat) (total : float) (out : list event),
    (i <= 2)%nat ->
    snd (totalCost_loop lib costs i routes total out) = Raise KeyError ->
    ~ covers costs (flattened (firstn (3 - i) routes)).
Proof.
  intros H; unfold flattened.
  induction routes as [|edges routes IH]; intros i total out Li.
  - cbn; discriminate.
  - rewrite totalCost_loop_cons, !H.
    replace (3 - i)%nat with (S (3 - S i)) by lia.
    rewrite firstn_cons; cbn [List.concat]; rewrite covers_app.
    destruct (sum_edges_spec costs edges total) as [[C R]|[C R]]; rewrite R;
      [|tauto].
    cbv zeta; destruct (nth_error styles i) as [style|] eqn:Sty;
      [|cbn [snd]; discriminate].
    apply style_Some in Sty; rewrite H.
    intros E; apply IH in E; [tauto|lia].
Qed.

(** C7, as stated, fails: in a mapping of four owners whose only edge
    without a cost belongs to the fourth, the loop stops at the third
    owner's style with [IndexError]; the edge is never looked up, and the
    failure is not the one of a missing table entry. *)
Lemma fourth_owner_missing_cost :
  In (1, 3) (flattened (Dict.values route_four)) /\
  Dict.get costsA (1, 3) = None /\
  totalCost quiet costsA route_four [] =
    (round [(1, 2)] "solid" ++ round [(2, 1)] "dashed"
       ++ [AddEdges [(2, 2)]; PrintEdges [(2, 2)]],
     Raise IndexError).
Proof.
  split; [|split].
  - cbn; auto.
  - reflexivity.
  - vm_compute; reflexivity.
Qed.

(** C7, amended: a Route mapping with an edge that the cost table lacks
    never yields a total.  When the drawing calls return, the loop raises
    [KeyError], the failure of the lookup, exactly when one of the first
    three owners has an edge without a cost, and in particular when the
    edge belongs to one of them; otherwise three owners with all their
    costs come before the edge, and the loop stops with [IndexError] at the
    third owner's style before it looks the edge up.  When the table was
    computed from a Position mapping that holds every node of every edge,
    [KeyError] cannot occur. *)
Theorem missing_cost_stops_loop
  (lib : library) (costs : costs_t) (suppliersRoute : route_t) :
  (forall e out,
      In e (flattened (Dict.values suppliersRoute)) ->
      Dict.get costs e = None ->
      exists err,
        snd (totalCost lib costs suppliersRoute out) = Raise err /\
        (returns lib ->
         (In e (flattened (firstn 3 (Dict.values suppliersRoute))) ->
          err = KeyError) /\
         ((err = KeyError /\
           ~ covers costs
               (flattened (firstn 3 (Dict.values suppliersRoute)))) \/
          (err = IndexError /\
           covers costs
             (flattened (firstn 3 (Dict.values suppliersRoute))) /\
           (3 < List.length (Dict.values suppliersRoute))%nat)))) /\
  (forall positions out,
      returns lib ->
      wf positions ->
      build_costs positions = Ok costs ->
      (forall a b,
          In (a, b) (flattened (Dict.values suppliersRoute)) ->
          In a (Dict.keys positions) /\ In b (Dict.keys positions)) ->
      snd (totalCost lib costs suppliersRoute out) <> Raise KeyError).
Proof.
  split.
  - intros e out I G.
    destruct (snd (totalCost lib costs suppliersRoute out))
      as [total|err] eqn:E.
    + apply totalCost_loop_ok in E; destruct E as (C & _).
      apply C in I; contradiction.
    + exists err; split; [reflexivity|]; intros H.
      pose proof (totalCost_loop_key_error lib costs
                    (Dict.values suppliersRoute) H 0 fzero out
                    (Nat.le_0_l 2)) as K.
      pose proof E as E'.
      apply (totalCost_loop_raise lib costs H) in E.
      change (3 - 0)%nat with 3%nat in *.
      destruct E as [[-> _]|(-> & L & C3)].
      * split; [reflexivity|left; split; [reflexivity|]].
        apply K; exact E'.
      * split; [intros I3; apply C3 in I3; contradiction|].
        right; split; [reflexivity|split; [exact C3|]].
        cbn in L.
        destruct (Nat.eq_dec (List.length (Dict.values suppliersRoute)) 3)
          as [L3|]; [|lia].
        rewrite <- L3, firstn_all in C3; apply C3 in I; contradiction.
  - intros positions out H W BC Inv E.
    apply (totalCost_loop_raise lib costs H) in E.
    destruct E as [[_ N]|([=] & _)]; apply N.
    intros [a b] I; destruct (Inv a b I) as [Ia Ib].
    pose proof (build_costs_get positions costs a b W BC) as G.
    destruct (Dict.get positions a) eqn:Ga;
      [|apply get_None_iff in Ga; contradiction].
    destruct (Dict.get positions b) eqn:Gb;
      [|apply get_None_iff in Gb; contradiction].
    destruct G as (c & _ & ->); discriminate.
Qed.


(** ** The scenarios, evaluated *)

Lemma covers_costsA_routeA :
  covers costsA (flattened (Dict.values routeA)).
Proof.
  intros e I; simpl in I.
  destruct I as [<-|[<-|[<-|[]]]]; vm_compute; discriminate.
Qed.

Lemma totalCost_is_resum_witness :
  snd (totalCost quiet costsA routeA []) =
    Ok (resum costsA (flattened (Dict.values routeA))).
Proof.
  apply (proj1 (proj2 (totalCost_is_resum quiet costsA routeA))).
  - exact quiet_returns.
  - exact covers_costsA_routeA.
  - simpl; lia.
Defined.

Lemma missing_cost_stops_loop_witness :
  exists err,
    snd (totalCost quiet costsA route_via_cd []) = Raise err /\
    (returns quiet ->
     (In (1, 3) (flattened (firstn 3 (Dict.values route_via_cd))) ->
      err = KeyError) /\
     ((err = KeyError /\
       ~ covers costsA (flattened (firstn 3 (Dict.values route_via_cd)))) \/
      (err = IndexError /\
       covers costsA (flattened (firstn 3 (Dict.values route_via_cd))) /\
       (3 < List.length (Dict.values route_via_cd))%nat))).
Proof.
  apply (proj1 (missing_cost_stops_loop quiet costsA route_via_cd)
           (1, 3) []).
  - simpl; auto.
  - reflexivity.
Defined.


Example scenarioC_script :
  run (script quiet scenarioA_from_2 scenarioC) =
  (preamble scenarioA_from_2 [1] [2] 3
     ++ round [(1, 2)] "solid" ++ round [(2, 1)] "dashed"
     ++ [AddEdges [(1, 1)]; PrintEdges [(1, 1)]],
   Raise IndexError).
Proof. vm_compute; reflexivity. Qed.

Lemma scenarioA_from_row2_witness :
  run (script quiet scenarioA_from_2 ["1 1 2"%string]) =
  (preamble scenarioA_from_2 [1] [2] 3
     ++ round [(1, 2)] "solid" ++ epilogue five,
   Ok five).
Proof.
  apply (proj2 (proj2 (scenarioA_from_row2 [0; 0; 0] quiet))).
  exact quiet_returns.
Defined.

Example first_seen_sample : first_seen [2; 1; 2; 3; 1] = [2; 1; 3].
Proof. reflexivity. Qed.

Example script_prints_rows_until_short_row :
  run (script quiet [[1; 1]; [0; 0; 0]; [1; 0; 0]; [2; 3]; [3; 1; 1]] []) =
  ([PrintFiles; PrintRow 1 0 0], Raise ValueError).
Proof. vm_compute; reflexivity. Qed.

Example scenarioB_line :
  readResult ["TotalObjective 42"]%string = Raise ValueError.
Proof. reflexivity. Qed.

Example totalCost_routeA :
  snd (totalCost quiet costsA routeA []) =
    Ok (S754_finite false 5629499534213120 (-49)).
Proof. vm_compute; reflexivity. Qed.

(** * Further properties *)

(** ** readInstance: outcomes *)

Lemma readInstance_rows_short (rows : matrix) (init : positions_t) :
  Exists (fun row => (List.length row < 3)%nat) rows ->
  readInstance_rows rows init = Raise ValueError.
Proof.
  intros X; revert init; induction rows as [|row rows IH]; intros init;
    [inversion X|].
  cbn [readInstance_rows].
  destruct row as [|a [|b [|c more]]]; try reflexivity.
  rewrite (proj2 (unpack3_firstn _ a b c)) by eauto; cbn [bind].
  apply IH; inversion X as [? ? L|]; subst; [cbn in L; lia|assumption].
Qed.

Lemma rows_long_or_short (rows : matrix) :
  Forall (fun row => (3 <= List.length row)%nat) rows \/
  Exists (fun row => (List.length row < 3)%nat) rows.
Proof.
  induction rows as [|row rows [F|X]].
  - left; constructor.
  - destruct (le_lt_dec 3 (List.length row)); [left|right]; auto.
  - right; auto.
Qed.

(** X1: on a matrix of integer cells, where [int(r)] cannot fail,
    [readInstance] raises [IndexError] exactly when the matrix is empty or
    its row 0 has fewer than two cells, [ValueError] exactly when row 0 is
    long enough and some row from row 2 on has fewer than three cells, and
    returns otherwise; on such a matrix it raises nothing else. *)
Theorem readInstance_outcome (inputData : matrix) :
  match readInstance inputData with
  | Ok _ =>
      (2 <= List.length (hd [] inputData))%nat /\
      Forall (fun row => (3 <= List.length row)%nat) (skipn 2 inputData)
  | Raise IndexError => (List.length (hd [] inputData) < 2)%nat
  | Raise ValueError =>
      (2 <= List.length (hd [] inputData))%nat /\
      Exists (fun row => (List.length row < 3)%nat) (skipn 2 inputData)
  | Raise _ => False
  end.
Proof.
  destruct inputData as [|[|nS [|nC extra]] rest]; try (cbn; lia).
  rewrite readInstance_header.
  change (skipn 2 ((nS :: nC :: extra) :: rest)) with (skipn 1 rest).
  cbn [hd List.length].
  destruct (rows_long_or_short (skipn 1 rest)) as [F|X].
  - destruct (readInstance_rows_total _ Dict.empty F) as [ps R].
    rewrite R; cbn [bind]; split; [lia|exact F].
  - rewrite (readInstance_rows_short _ Dict.empty X); cbn [bind].
    split; [lia|exact X].
Qed.

Lemma readInstance_rows_firstn (rows : matrix) (init : positions_t) :
  readInstance_rows (map (firstn 3) rows) init = readInstance_rows rows init.
Proof.
  revert init; induction rows as [|row rows IH]; intros init;
    [reflexivity|].
  cbn [map readInstance_rows]; rewrite firstn_firstn; cbn [Nat.min].
  destruct (unpack3 (firstn 3 row)) as [[[a b] c]|e]; cbn [bind];
    [apply IH|reflexivity].
Qed.

(** X2: [readInstance] reads two cells of row 0 and three cells of every
    row from row 2 on, and nothing else: cutting the rows to those cells
    and replacing row 1 by any other row leaves the result unchanged. *)
Theorem readInstance_reads_leading_cells
  (row0 row1 row1' : list Z) (rows : matrix) :
  readInstance (firstn 2 row0 :: row1' :: map (firstn 3) rows) =
  readInstance (row0 :: row1 :: rows).
Proof.
  destruct row0 as [|nS [|nC extra]]; try reflexivity.
  change (firstn 2 (nS :: nC :: extra)) with [nS; nC].
  rewrite !readInstance_header; cbn [skipn].
  rewrite readInstance_rows_firstn; reflexivity.
Qed.

(** ** readInstance: order of the positions, sizes of the ranges *)

Lemma set_fresh {K V : Type} `{Key K} (d : Dict.t K V) (k : K) (v : V) :
  ~ In k (Dict.keys d) -> Dict.set d k v = d ++ [(k, v)].
Proof.
  induction d as [|[k' v'] d IH]; cbn; intros N; [reflexivity|].
  rewrite keyb_neq by tauto.
  rewrite IH by tauto; reflexivity.
Qed.

Lemma keys_app {K V : Type} (d1 d2 : Dict.t K V) :
  Dict.keys (d1 ++ d2) = Dict.keys d1 ++ Dict.keys d2.
Proof. apply map_app. Qed.

Lemma readInstance_rows_distinct (rows : matrix) :
  forall init : positions_t,
    Forall (fun row => (3 <= List.length row)%nat) rows ->
    NoDup (Dict.keys init ++ map (fun row => nth 0 row 0) rows) ->
    readInstance_rows rows init = Ok (init ++ map node_row rows).
Proof.
  induction rows as [|row rows IH]; intros init F N.
  - cbn; rewrite app_nil_r; reflexivity.
  - inversion F as [|? ? L F']; subst.
    destruct row as [|a [|b [|c more]]]; cbn in L; try lia.
    cbn [readInstance_rows map].
    rewrite (proj2 (unpack3_firstn _ a b c)) by eauto; cbn [bind].
    change (node_row (a :: b :: c :: more)) with (a, (b, c)).
    cbn [nth] in N.
    rewrite set_fresh
      by (apply NoDup_remove_2 in N; intros I; apply N;
          apply in_or_app; left; exact I).
    rewrite IH; [rewrite <- app_assoc; reflexivity|exact F'|].
    rewrite keys_app, <- app_assoc; exact N.
Qed.

(** X3: when every row from row 2 on has at least three cells and no node
    id is listed twice, the Position mapping holds the rows' nodes in file
    order, each with its own pair. *)
Theorem readInstance_keeps_file_order
  (nS nC : Z) (extra row1 : list Z) (rows : matrix) :
  Forall (fun row => (3 <= List.length row)%nat) rows ->
  NoDup (map (fun row => nth 0 row 0) rows) ->
  readInstance ((nS :: nC :: extra) :: row1 :: rows) =
    Ok (range 1 (nS + 1), range (nS + 1) (nS + nC + 1), nS + nC + 1,
        map node_row rows).
Proof.
  intros F N; rewrite readInstance_header; cbn [skipn].
  rewrite (readInstance_rows_distinct rows Dict.empty F N); reflexivity.
Qed.

Lemma readInstance_keeps_file_order_witness :
  readInstance ([2; 1] :: [0; 0; 0] :: [[3; 6; 8]; [1; 0; 0; 9]; [2; 3; 4]]) =
    Ok (range 1 (2 + 1), range (2 + 1) (2 + 1 + 1), 2 + 1 + 1,
        map node_row [[3; 6; 8]; [1; 0; 0; 9]; [2; 3; 4]]).
Proof.
  apply (readInstance_keeps_file_order 2 1 [] [0; 0; 0]
           [[3; 6; 8]; [1; 0; 0; 9]; [2; 3; 4]]).
  - repeat constructor; cbn; lia.
  - repeat constructor; cbn; intuition discriminate.
Defined.

Lemma length_range (lo hi : Z) :
  List.length (range lo hi) = Z.to_nat (hi - lo).
Proof. unfold range; rewrite length_map, length_seq; reflexivity. Qed.

(** X4: the supplier range has [max 0 nSuppliers] elements and the consumer
    range [max 0 nConsumers]; a count of zero or less gives an empty range,
    and the cross-dock id is nSuppliers + nConsumers + 1 in every case. *)
Theorem readInstance_range_sizes
  (nS nC : Z) (extra : list Z) (rest : matrix)
  (suppliers consumers : list Z) (cd : Z) (positions : positions_t) :
  readInstance ((nS :: nC :: extra) :: rest) =
    Ok (suppliers, consumers, cd, positions) ->
  List.length suppliers = Z.to_nat nS /\
  List.length consumers = Z.to_nat nC /\
  cd = nS + nC + 1 /\
  (nS <= 0 -> suppliers = []) /\
  (nC <= 0 -> consumers = []).
Proof.
  rewrite readInstance_header; intros R; step_in R; inv R.
  rewrite !length_range.
  refine (conj _ (conj _ (conj eq_refl (conj _ _)))); try (f_equal; lia).
  - intros L; apply length_zero_iff_nil; rewrite length_range; lia.
  - intros L; apply length_zero_iff_nil; rewrite length_range; lia.
Qed.

Lemma readInstance_range_sizes_witness :
  List.length (@nil Z) = Z.to_nat 0 /\
  List.length [1; 2] = Z.to_nat 2 /\
  3 = 0 + 2 + 1 /\
  (0 <= 0 -> @nil Z = []) /\
  (2 <= 0 -> [1; 2] = []).
Proof.
  apply (readInstance_range_sizes 0 2 [] [[0; 0; 0]; [3; 1; 1]]
           [] [1; 2] 3 [(3, (1, 1))]).
  reflexivity.
Defined.

(** ** The cost table: shape, failures, invariances *)

Lemma costs_inner_keys (i xi yi : Z) (js : list item) :
  forall costs costs' : costs_t,
    NoDup (map fst js) ->
    (forall j, In j (map fst js) -> ~ In (i, j) (Dict.keys costs)) ->
    costs_inner i xi yi js costs = Ok costs' ->
    Dict.keys costs' = Dict.keys costs ++ map (pair i) (map fst js).
Proof.
  induction js as [|[j [xj yj]] js IH]; intros costs costs' N Fr R;
    cbn in R.
  - inv R; cbn; rewrite app_nil_r; reflexivity.
  - step_in R; inversion N as [|? ? Hj N']; subst.
    rewrite set_fresh in R by (apply Fr; left; reflexivity).
    rewrite (IH _ _ N') with (2 := R).
    + rewrite keys_app, <- app_assoc; reflexivity.
    + intros j' J; rewrite keys_app, in_app_iff; cbn.
      intros [I|[Q|[]]]; [apply (Fr j'); [right|]; assumption|].
      inv Q; contradiction.
Qed.

Lemma costs_outer_keys (rows js : list item) :
  forall costs costs' : costs_t,
    NoDup (map fst rows) -> NoDup (map fst js) ->
    (forall i j, In i (map fst rows) -> ~ In (i, j) (Dict.keys costs)) ->
    costs_outer rows js costs = Ok costs' ->
    Dict.keys costs' =
    Dict.keys costs ++ list_prod (map fst rows) (map fst js).
Proof.
  induction rows as [|[i [xi yi]] rows IH]; intros costs costs' NR NJ Fr R;
    cbn in R.
  - inv R; cbn; rewrite app_nil_r; reflexivity.
  - step_in R; inversion NR as [|? ? Hi NR']; subst.
    pose proof (costs_inner_keys _ _ _ _ _ _ NJ
                  (fun j _ => Fr i j (or_introl eq_refl)) E) as K1.
    rewrite (IH _ _ NR' NJ) with (2 := R).
    + rewrite K1, <- app_assoc; reflexivity.
    + intros i' j I; rewrite K1, in_app_iff, in_map_iff.
      intros [I'|(j' & Q & _)]; [apply (Fr i' j); [right|]; assumption|].
      inv Q; contradiction.
Qed.

Lemma NoDup_list_prod {A B : Type} (l : list A) (l' : list B) :
  NoDup l -> NoDup l' -> NoDup (list_prod l l').
Proof.
  intros N N'; induction N as [|a l Ha N IH]; cbn; [constructor|].
  apply NoDup_app; [|exact IH|].
  - apply Injective_map_NoDup; [intros x y [= ->]; reflexivity|exact N'].
  - intros [x y] I J; apply in_map_iff in I; destruct I as (y' & [= <- <-] & _).
    apply in_prod_iff in J; tauto.
Qed.

(** X5: the cost table computed from a Position mapping has one entry for
    every ordered pair of its nodes and no other: its keys are the pairs
    [(i, j)] in the order of the two nested loops, so its size is the square
    of the number of nodes. *)
Theorem build_costs_all_pairs (positions : positions_t) (costs : costs_t) :
  wf positions ->
  build_costs positions = Ok costs ->
  Dict.keys costs = list_prod (Dict.keys positions) (Dict.keys positions) /\
  List.length costs =
    (List.length positions * List.length positions)%nat /\
  wf costs.
Proof.
  intros W B; unfold build_costs, Dict.items in B.
  assert (K : Dict.keys costs =
              list_prod (Dict.keys positions) (Dict.keys positions)).
  { rewrite (costs_outer_keys _ _ _ _ W W) with (2 := B); [reflexivity|].
    intros i j _ []. }
  split; [exact K|split].
  - rewrite <- (length_map fst costs).
    change (map fst costs) with (Dict.keys costs).
    rewrite K, length_prod; unfold Dict.keys; rewrite length_map.
    reflexivity.
  - unfold wf; rewrite K; apply NoDup_list_prod; exact W.
Qed.

Lemma build_costs_all_pairs_witness :
  Dict.keys costsA = list_prod (Dict.keys positionsA) (Dict.keys positionsA) /\
  List.length costsA =
    (List.length positionsA * List.length positionsA)%nat /\
  wf costsA.
Proof.
  apply (build_costs_all_pairs positionsA costsA).
  - repeat constructor; cbn; intuition discriminate.
  - vm_compute; reflexivity.
Defined.

Lemma float_of_int_raise (n : Z) (e : exn) :
  float_of_int n = Raise e -> e = OverflowError.
Proof.
  unfold float_of_int.
  destruct (binary_normalize prec emax n 0 false); try discriminate.
  intros [= <-]; reflexivity.
Qed.

Lemma pow_half_raise (n : Z) (e : exn) :
  pow_half n = Raise e -> float_of_int n = Raise e.
Proof.
  unfold pow_half; destruct (float_of_int n); cbn; [discriminate|auto].
Qed.

Lemma pow_half_ok (n : Z) (c : float) :
  pow_half n = Ok c -> float_of_int n <> Raise OverflowError.
Proof.
  unfold pow_half; destruct (float_of_int n); cbn; discriminate.
Qed.

Lemma costs_inner_raise (i xi yi : Z) (js : list item) :
  forall (costs : costs_t) (e : exn),
    costs_inner i xi yi js costs = Raise e ->
    exists j q, In (j, q) js /\ float_of_int (dist2 (xi, yi) q) = Raise e.
Proof.
  induction js as [|[j [xj yj]] js IH]; intros costs e R;
    cbn [costs_inner costs_outer] in R; [discriminate|].
  destruct (pow_half ((xi - xj) ^ 2 + (yi - yj) ^ 2)) as [c|e'] eqn:P;
    cbn [bind] in R.
  - destruct (IH _ _ R) as (j' & q & I & Q); exists j', q; split; auto.
    right; exact I.
  - inv R; exists j, (xj, yj); split; [left; reflexivity|].
    apply pow_half_raise; exact P.
Qed.

Lemma costs_outer_raise (rows js : list item) :
  forall (costs : costs_t) (e : exn),
    costs_outer rows js costs = Raise e ->
    exists i p j q,
      In (i, p) rows /\ In (j, q) js /\ float_of_int (dist2 p q) = Raise e.
Proof.
  induction rows as [|[i [xi yi]] rows IH]; intros costs e R;
    cbn [costs_inner costs_outer] in R; [discriminate|].
  destruct (costs_inner i xi yi js costs) as [costs1|e'] eqn:E; cbn [bind] in R.
  - destruct (IH _ _ R) as (i' & p & j & q & I & J & Q).
    exists i', p, j, q; split; [right; exact I|auto].
  - inv R; destruct (costs_inner_raise _ _ _ _ _ _ E) as (j & q & J & Q).
    exists i, (xi, yi), j, q; split; [left; reflexivity|auto].
Qed.

(** X6: building the cost table fails only with [OverflowError], and it
    fails exactly when the squared distance of some pair of positions is too
    large for a float. *)
Theorem build_costs_outcome (positions : positions_t) :
  match build_costs positions with
  | Ok _ =>
      forall i p j q,
        In (i, p) positions -> In (j, q) positions ->
        float_of_int (dist2 p q) <> Raise OverflowError
  | Raise e =>
      e = OverflowError /\
      exists i p j q,
        In (i, p) positions /\ In (j, q) positions /\
        float_of_int (dist2 p q) = Raise OverflowError
  end.
Proof.
  unfold build_costs, Dict.items.
  destruct (costs_outer positions positions Dict.empty) as [costs|e] eqn:B.
  - intros i p j q I J.
    destruct (costs_outer_ok _ _ _ _ i j p q B I J) as [c P].
    apply (pow_half_ok _ _ P).
  - destruct (costs_outer_raise _ _ _ _ B) as (i & p & j & q & I & J & Q).
    pose proof (float_of_int_raise _ _ Q); subst e; eauto 10.
Qed.

Example build_costs_overflow :
  build_costs [(1, (0, 0)); (2, (2 ^ 512, 0))] = Raise OverflowError.
Proof. vm_compute; reflexivity. Qed.

Lemma costs_inner_shift (dx dy i xi yi : Z) (js : list item) :
  forall costs : costs_t,
    costs_inner i (xi + dx) (yi + dy) (shift dx dy js) costs =
    costs_inner i xi yi js costs.
Proof.
  induction js as [|[j [xj yj]] js IH]; intros costs; [reflexivity|].
  cbn [shift map costs_inner fst snd].
  replace ((xi + dx - (xj + dx)) ^ 2 + (yi + dy - (yj + dy)) ^ 2)
    with ((xi - xj) ^ 2 + (yi - yj) ^ 2) by ring.
  destruct (pow_half _); cbn [bind]; [apply IH|reflexivity].
Qed.

Lemma costs_outer_shift (dx dy : Z) (rows js : list item) :
  forall costs : costs_t,
    costs_outer (shift dx dy rows) (shift dx dy js) costs =
    costs_outer rows js costs.
Proof.
  induction rows as [|[i [xi yi]] rows IH]; intros costs; [reflexivity|].
  cbn [shift map costs_outer fst snd].
  rewrite (costs_inner_shift dx dy i xi yi js costs).
  destruct (costs_inner i xi yi js costs); cbn [bind];
    [apply IH|reflexivity].
Qed.

(** X7: the cost table depends only on the differences of the coordinates:
    moving every node by the same [(dx, dy)] gives the same table, or the
    same failure. *)
Theorem build_costs_shift (dx dy : Z) (positions : positions_t) :
  build_costs (shift dx dy positions) = build_costs positions.
Proof. unfold build_costs, Dict.items; apply costs_outer_shift. Qed.

Lemma costs_get_swap (positions : positions_t) (costs : costs_t) (a b : Z) :
  wf positions ->
  build_costs positions = Ok costs ->
  Dict.get costs (b, a) = Dict.get costs (a, b).
Proof.
  intros W B.
  pose proof (build_costs_get positions costs a b W B) as Gab.
  pose proof (build_costs_get positions costs b a W B) as Gba.
  destruct (Dict.get positions a) as [p|], (Dict.get positions b) as [q|];
    try congruence.
  destruct Gab as (c & P & ->), Gba as (c' & P' & ->).
  rewrite dist2_sym in P'; congruence.
Qed.

(** X8: for a table computed from a Position mapping, the summing loop
    gives the same result, total or [KeyError], on a list of edges and on
    the same edges each taken in the other direction. *)
Theorem sum_edges_swap
  (positions : positions_t) (costs : costs_t) (edges : list edge)
  (total : float) :
  wf positions ->
  build_costs positions = Ok costs ->
  sum_edges costs (map swap edges) total = sum_edges costs edges total.
Proof.
  intros W B; revert total.
  induction edges as [|[a b] edges IH]; intros total; [reflexivity|].
  cbn [map swap fst snd sum_edges]; unfold Dict.lookup.
  rewrite (costs_get_swap positions costs a b W B).
  destruct (Dict.get costs (a, b)); cbn [bind]; [apply IH|reflexivity].
Qed.

Lemma sum_edges_swap_witness :
  sum_edges costsA (map swap [(1, 2); (2, 2); (1, 3)]) fzero =
  sum_edges costsA [(1, 2); (2, 2); (1, 3)] fzero.
Proof.
  apply (sum_edges_swap positionsA costsA).
  - repeat constructor; cbn; intuition discriminate.
  - vm_compute; reflexivity.
Defined.

(** ** readResult: skipped lines, failures, counts, concatenation *)

Lemma readResult_lines_filter (lines : list string) :
  forall init : route_t,
    readResult_lines (filter qualifies lines) init =
    readResult_lines lines init.
Proof.
  induction lines as [|line lines IH]; intros init; [reflexivity|].
  cbn [filter]; destruct (qualifies line) eqn:Q; cbn [readResult_lines].
  - destruct (readResult_line line init); cbn [bind];
      [apply IH|reflexivity].
  - rewrite readResult_line_spec, Q; cbn [bind]; apply IH.
Qed.

(** X9: the lines with zero or one token have no effect at all: the reader
    gives the same mapping, or the same failure, on the file and on the
    file without them. *)
Theorem readResult_without_skipped_lines (lines : list string) :
  readResult (filter qualifies lines) = readResult lines.
Proof. apply readResult_lines_filter. Qed.




Lemma add_edge_count (d : route_t) (t : Z * edge) :
  List.length (flattened (Dict.values (add_edge d t))) =
  S (List.length (flattened (Dict.values d))).
Proof.
  destruct t as [k e].
  unfold add_edge, flattened, Dict.get_default, Dict.values.
  cbn [fst snd].
  induction d as [|[k' v'] d IH]; [reflexivity|].
  cbn [Dict.get Dict.set].
  destruct (keyb k' k) eqn:E; cbn [map snd List.concat].
  - rewrite !length_app; cbn [List.length]; lia.
  - rewrite !length_app, IH; lia.
Qed.

Lemma fold_add_edge_count (ts : list (Z * edge)) :
  forall init : route_t,
    List.length (flattened (Dict.values (fold_left add_edge ts init))) =
    (List.length (flattened (Dict.values init)) + List.length ts)%nat.
Proof.
  induction ts as [|t ts IH]; intros init; cbn [fold_left List.length];
    [lia|].
  rewrite IH, add_edge_count; lia.
Qed.

Lemma length_triples (lines : list string) :
  Forall line_ok lines ->
  List.length (triples lines) = List.length (filter qualifies lines).
Proof.
  induction 1 as [|line lines L F IH]; [reflexivity|].
  rewrite triples_cons; cbn [filter].
  destruct (qualifies line) eqn:Q; [|exact IH].
  destruct (parse_line line) eqn:P; [cbn; congruence|].
  exfalso; exact (L Q P).
Qed.

(** X11: the reader neither drops nor invents an edge: the lists of the
    returned mapping hold, together, as many edges as the file has lines
    with two or more tokens. *)
Theorem readResult_edge_count (lines : list string) (route : route_t) :
  readResult lines = Ok route ->
  List.length (flattened (Dict.values route)) =
  List.length (filter qualifies lines).
Proof.
  intros R; destruct (readResult_ok _ _ R) as (F & _).
  unfold readResult in R.
  destruct (readResult_lines_spec lines Dict.empty) as [[_ R']|[N _]];
    [|contradiction].
  rewrite R' in R; inv R.
  rewrite fold_add_edge_count, length_triples by exact F; reflexivity.
Qed.

Lemma readResult_edge_count_witness :
  List.length
    (flattened
       (Dict.values [(2, [(5, 6); (6, 7)]); (1, [(1, 2); (2, 30)])])) =
  List.length (filter qualifies sample_result).
Proof.
  apply (readResult_edge_count sample_result).
  vm_compute; reflexivity.
Defined.

Lemma readResult_lines_app (l1 l2 : list string) (init : route_t) :
  readResult_lines (l1 ++ l2) init =
  (r <- readResult_lines l1 init ;; readResult_lines l2 r).
Proof.
  revert init; induction l1 as [|line l1 IH]; intros init; [reflexivity|].
  cbn [app readResult_lines].
  destruct (readResult_line line init); cbn [bind]; [apply IH|reflexivity].
Qed.

Lemma get_app_fresh {K V : Type} `{Key K} (d1 d2 : Dict.t K V) (k : K) :
  ~ In k (Dict.keys d1) -> Dict.get (d1 ++ d2) k = Dict.get d2 k.
Proof.
  induction d1 as [|[k' v'] d1 IH]; cbn; intros N; [reflexivity|].
  rewrite keyb_neq by tauto; apply IH; tauto.
Qed.

Lemma set_app_fresh {K V : Type} `{Key K} (d1 d2 : Dict.t K V) (k : K)
  (v : V) :
  ~ In k (Dict.keys d1) -> Dict.set (d1 ++ d2) k v = d1 ++ Dict.set d2 k v.
Proof.
  induction d1 as [|[k' v'] d1 IH]; cbn; intros N; [reflexivity|].
  rewrite keyb_neq by tauto; rewrite IH by tauto; reflexivity.
Qed.

Lemma fold_add_edge_app (ts : list (Z * edge)) (r1 : route_t) :
  forall d : route_t,
    (forall t, In t ts -> ~ In (fst t) (Dict.keys r1)) ->
    fold_left add_edge ts (r1 ++ d) = r1 ++ fold_left add_edge ts d.
Proof.
  induction ts as [|t ts IH]; intros d Fr; [reflexivity|].
  cbn [fold_left]; rewrite <- IH by (intros t' I; apply Fr; right; exact I).
  f_equal; unfold add_edge, Dict.get_default.
  rewrite get_app_fresh, set_app_fresh by (apply Fr; left; reflexivity).
  reflexivity.
Qed.

(** X12: result files compose: when two files are read without failure and
    no owner of the first appears in the second, reading the first followed
    by the second gives the first mapping followed by the second. *)
Theorem readResult_app_disjoint (l1 l2 : list string) (r1 r2 : route_t) :
  readResult l1 = Ok r1 ->
  readResult l2 = Ok r2 ->
  (forall owner, In owner (Dict.keys r1) -> ~ In owner (Dict.keys r2)) ->
  readResult (l1 ++ l2) = Ok (r1 ++ r2).
Proof.
  intros R1 R2 Dis.
  destruct (readResult_ok _ _ R2) as (F2 & _ & K2 & _).
  unfold readResult in *; rewrite readResult_lines_app, R1; cbn [bind].
  destruct (readResult_lines_spec l2 Dict.empty) as [[_ E]|[N _]];
    [|contradiction].
  rewrite E in R2; inv R2.
  destruct (readResult_lines_spec l2 r1) as [[_ E1]|[N _]];
    [|contradiction].
  rewrite E1; f_equal.
  rewrite <- (app_nil_r r1) at 1; apply fold_add_edge_app.
  intros t I Ik; apply (Dis _ Ik).
  rewrite K2; apply In_first_seen; apply in_map; exact I.
Qed.

Lemma readResult_app_disjoint_witness :
  readResult
    (["1 1 2"; ""; "2 2 1"]%string ++ ["3 1 1"; "3 2 2"]%string)%list =
    Ok ([(1, [(1, 2)]); (2, [(2, 1)])] ++ [(3, [(1, 1); (2, 2)])]).
Proof.
  apply readResult_app_disjoint.
  - reflexivity.
  - reflexivity.
  - cbn; intros owner; lia.
Defined.

(** ** The loop and the script: what is drawn *)

Lemma rounds_from_cons (i : nat) (style : string) (edges : list edge)
  (routes : list (list edge)) :
  nth_error styles i = Some style ->
  rounds_from i (edges :: routes) =
  round edges style ++ rounds_from (S i) routes.
Proof.
  unfold rounds_from; destruct i as [|[|i]]; cbn [nth_error styles].
  - intros [= <-]; reflexivity.
  - intros [= <-]; reflexivity.
  - destruct i; discriminate.
Qed.

Section Rounds.
Variable lib : library.
Variable costs : costs_t.
Hypothesis lib_returns : returns lib.

(** The loop over routes that are all covered and all have a style. *)
Lemma totalCost_loop_prefix (done : list (list edge)) :
  forall (i : nat) (total : float) (out : list event)
         (rest : list (list edge)),
    covers costs (flattened done) ->
    (List.length done <= 2 - i)%nat ->
    totalCost_loop lib costs i (done ++ rest) total out =
    totalCost_loop lib costs (i + List.length done) rest
      (fold_left (add_cost costs) (flattened done) total)
      (out ++ rounds_from i done).
Proof.
  unfold flattened.
  induction done as [|edges done IH]; intros i total out rest C L.
  - cbn [app List.length List.concat fold_left].
    unfold rounds_from; cbn [combine map List.concat].
    rewrite Nat.add_0_r, app_nil_r; reflexivity.
  - cbn [List.concat List.length] in *.
    apply covers_app in C; destruct C as [C1 C2].
    cbn [app]; rewrite totalCost_loop_cons, !lib_returns.
    destruct (sum_edges_spec costs edges total) as [[_ R]|[N _]];
      [rewrite R|contradiction].
    cbv zeta.
    destruct (nth_error styles i) as [style|] eqn:Sty;
      [|apply style_None in Sty; lia].
    rewrite lib_returns, (rounds_from_cons i style _ _ Sty).
    rewrite IH by (auto; apply style_Some in Sty; lia).
    rewrite fold_left_app; unfold round.
    rewrite <- !app_assoc, Nat.add_succ_r; reflexivity.
Qed.

End Rounds.

(** X13: with at most two owners, a cost for every edge, readers that
    succeed and drawing calls that return, the script runs to its end: after
    the preamble it adds, prints and draws each owner's edges in the
    mapping's order, the first owner's solid and the second's dashed, then
    prints the total and shows the plot. *)
Theorem script_draws_each_owner
  (lib : library) (inputData : matrix) (resultLines : list string)
  (suppliers consumers : list Z) (cd : Z) (positions : positions_t)
  (costs : costs_t) (suppliersRoute : route_t) :
  returns lib ->
  readInstance inputData = Ok (suppliers, consumers, cd, positions) ->
  build_costs positions = Ok costs ->
  readResult resultLines = Ok suppliersRoute ->
  covers costs (flattened (Dict.values suppliersRoute)) ->
  (List.length (Dict.keys suppliersRoute) <= 2)%nat ->
  run (script lib inputData resultLines) =
  (preamble inputData suppliers consumers cd
     ++ rounds_from 0 (Dict.values suppliersRoute)
     ++ epilogue (resum costs (flattened (Dict.values suppliersRoute))),
   Ok (resum costs (flattened (Dict.values suppliersRoute)))).
Proof.
  intros H RI BC RR C L; rewrite <- length_values_keys in L.
  rewrite (script_after_readers lib H _ _ _ _ _ _ _ _ RI BC RR).
  unfold totalCost.
  rewrite <- (app_nil_r (Dict.values suppliersRoute)) at 1.
  rewrite (totalCost_loop_prefix lib costs H) by (auto; cbn; lia).
  cbn [totalCost_loop ret]; rewrite <- app_assoc; reflexivity.
Qed.

Lemma script_draws_each_owner_witness :
  run (script quiet scenarioA_from_2 ["1 1 2"; "2 2 2"; "1 2 1"]%string) =
  (preamble scenarioA_from_2 [1] [2] 3
     ++ rounds_from 0 (Dict.values routeA)
     ++ epilogue (resum costsA (flattened (Dict.values routeA))),
   Ok (resum costsA (flattened (Dict.values routeA)))).
Proof.
  apply (script_draws_each_owner quiet scenarioA_from_2
           ["1 1 2"; "2 2 2"; "1 2 1"]%string [1] [2] 3 positionsA).
  - exact quiet_returns.
  - reflexivity.
  - vm_compute; reflexivity.
  - reflexivity.
  - exact covers_costsA_routeA.
  - cbn; lia.
Defined.

(** X14: the loop looks up every edge of an owner before it adds any of
    them to the graph: when the first owner with an edge that the table
    lacks is one of the first three, the loop stops with [KeyError] having
    added, printed and drawn the owners before it and nothing of this
    owner or of the later ones. *)
Theorem totalCost_stops_before_uncovered_owner
  (lib : library) (costs : costs_t) (suppliersRoute : route_t)
  (done : list (list edge)) (bad : list edge) (rest : list (list edge))
  (out : list event) :
  returns lib ->
  Dict.values suppliersRoute = done ++ bad :: rest ->
  covers costs (flattened done) ->
  ~ covers costs bad ->
  (List.length done <= 2)%nat ->
  totalCost lib costs suppliersRoute out =
  (out ++ rounds_from 0 done, Raise KeyError).
Proof.
  intros H V C N L; unfold totalCost; rewrite V.
  rewrite (totalCost_loop_prefix lib costs H) by (auto; cbn; lia).
  rewrite totalCost_loop_cons.
  destruct (sum_edges_spec costs bad
              (fold_left (add_cost costs) (flattened done) fzero))
    as [[C' _]|[_ R]]; [contradiction|].
  rewrite R; reflexivity.
Qed.

Lemma totalCost_stops_before_uncovered_owner_witness :
  totalCost quiet costsA [(1, [(1, 2)]); (2, [(2, 1)]); (3, [(1, 3)])] [] =
  ([] ++ rounds_from 0 [[(1, 2)]; [(2, 1)]], Raise KeyError).
Proof.
  apply (totalCost_stops_before_uncovered_owner quiet costsA
           [(1, [(1, 2)]); (2, [(2, 1)]); (3, [(1, 3)])]
           [[(1, 2)]; [(2, 1)]] [(1, 3)] []).
  - exact quiet_returns.
  - reflexivity.
  - intros e I; cbn in I; destruct I as [<-|[<-|[]]]; vm_compute;
      discriminate.
  - intros C; apply (C (1, 3)); [left; reflexivity|reflexivity].
  - cbn; lia.
Defined.

Lemma printed_rows_are_prints (rows : matrix) :
  Forall (fun ev => is_print ev = true) (printed_rows rows).
Proof.
  induction rows as [|[|a [|b [|c more]]] rows IH]; try constructor.
  - reflexivity.
  - exact IH.
Qed.

Lemma readInstance_output_prints (inputData : matrix) :
  Forall (fun ev => is_print ev = true) (readInstance_output inputData).
Proof.
  unfold readInstance_output.
  destruct inputData as [|[|nS [|nC extra]] rest]; try constructor.
  apply printed_rows_are_prints.
Qed.

(** X15: the script reads the instance, builds the cost table and reads the
    result file, in this order, before its first library call: when one of
    the three fails, the script raises the error of the first that fails,
    and its output is the two file names followed by the rows that
    [readInstance] printed, with no library call in it, whatever the
    library does. *)
Theorem script_fails_before_drawing
  (lib : library) (inputData : matrix) (resultLines : list string) :
  let stopped e :=
    run (script lib inputData resultLines) =
      (PrintFiles :: readInstance_output inputData, Raise e) /\
    Forall (fun ev => is_print ev = true)
      (fst (run (script lib inputData resultLines))) in
  match readInstance inputData with
  | Raise e => stopped e
  | Ok (_, _, _, positions) =>
      match build_costs positions with
      | Raise e => stopped e
      | Ok _ => forall e, readResult resultLines = Raise e -> stopped e
      end
  end.
Proof.
  assert (P : Forall (fun ev => is_print ev = true)
                (PrintFiles :: readInstance_output inputData))
    by (constructor; [reflexivity|apply readInstance_output_prints]).
  cbv zeta; rewrite script_run; cbv zeta.
  destruct (readInstance inputData) as [[[[s c] cd] ps]|e]; [|split; auto].
  destruct (build_costs ps) as [costs|e]; [|split; auto].
  intros e R; rewrite R; split; auto.
Qed.

(** X16: a cost lookup does not depend on the order in which the instance
    lists its nodes: two Position mappings with the same entries give cost
    tables with the same entries. *)
Theorem build_costs_order_independent
  (positions positions' : positions_t) (costs costs' : costs_t) :
  wf positions -> wf positions' ->
  (forall i, Dict.get positions i = Dict.get positions' i) ->
  build_costs positions = Ok costs ->
  build_costs positions' = Ok costs' ->
  forall e, Dict.get costs e = Dict.get costs' e.
Proof.
  intros W W' Same B B' [i j].
  pose proof (build_costs_get positions costs i j W B) as G.
  pose proof (build_costs_get positions' costs' i j W' B') as G'.
  rewrite <- !Same in G'.
  destruct (Dict.get positions i) as [p|], (Dict.get positions j) as [q|];
    try congruence.
  destruct G as (c & P & ->), G' as (c' & P' & ->); congruence.
Qed.

Lemma build_costs_order_independent_witness :
  Dict.get costsA (1, 2) =
  Dict.get
    [((2, 2), fzero); ((2, 1), five); ((1, 2), five); ((1, 1), fzero)]
    (1, 2).
Proof.
  apply (build_costs_order_independent positionsA
           [(2, (3, 4)); (1, (0, 0))]).
  - repeat constructor; cbn; intuition discriminate.
  - repeat constructor; cbn; intuition discriminate.
  - intros i; unfold positionsA; cbn [Dict.get keyb Key_Z].
    destruct (Z.eqb_spec 1 i), (Z.eqb_spec 2 i); try reflexivity; lia.
  - vm_compute; reflexivity.
  - vm_compute; reflexivity.
Defined.
